(** * Swahili M-PESA message parser: a shallow embedding of
      [swaili_mpesa_parser.py] and the properties checked against it.

    The Python class [SwahiliMPESAParser] is a table of regular expressions
    (one per transaction category), a routine that glues them into one
    pattern, and [parse_message], which runs the pattern with [re.search]
    and rewrites the captured groups into a result dictionary.

    Modelling choices, all of them visible below:
    - text is a [string] whose characters are the code points 0..255
      (ASCII and Latin-1); the character tests ([\d], [\s], case folding,
      [str.strip]) are the ones Python applies to these code points;
    - the [re] module is embedded as a backtracking matcher in
      continuation-passing style with Python's priorities (ordered
      alternation, greedy and lazy repetition, optional groups that are
      tried before they are skipped, leftmost [search]);
    - a Python [dict] is a [gmap] from keys to dynamically typed values;
    - a call either returns a dictionary or raises; [outcome] keeps both;
    - a finite Python [float] is written as the decimal value it was read
      from: [Finite neg q] stands for the double nearest to [q]. Values
      beyond the range of a double become infinite, values below it
      zero, as in Python; two literals that round to the same double
      are still told apart here, so no property below rests on two
      finite floats being different. *)

From Stdlib Require Import String Ascii List ZArith QArith Qpower Bool Lia.
From stdpp Require Import gmap strings.

Open Scope string_scope.
Set Warnings "-clear-no-such-hyp".
#[local] Arguments String.append !_ _ : simpl nomatch.

(** ** Characters *)

Module Char.

Definition code (c : ascii) : nat := nat_of_ascii c.

Definition between (lo hi : nat) (c : ascii) : bool :=
  (lo <=? code c)%nat && (code c <=? hi)%nat.

(** [\d] on a [str] pattern: the decimal digits. *)
Definition is_digit (c : ascii) : bool := between 48 57 c.

(** [\s] on a [str] pattern and the characters [str.strip] removes:
    TAB..CR, FS..US, space, NEL and NBSP. *)
Definition is_space (c : ascii) : bool :=
  between 9 13 c || between 28 32 c
  || Nat.eqb (code c) 133 || Nat.eqb (code c) 160.

(** The letters of 0..255 that have a partner of the other case in
    0..255, and the partner: the case folding IGNORECASE compares
    characters with. *)
Definition is_upper (c : ascii) : bool :=
  between 65 90 c || between 192 214 c || between 216 222 c.

Definition is_lower (c : ascii) : bool :=
  between 97 122 c || between 224 246 c || between 248 254 c.

Definition lower (c : ascii) : ascii :=
  if is_upper c then ascii_of_nat (code c + 32) else c.

Definition upper (c : ascii) : ascii :=
  if is_lower c then ascii_of_nat (code c - 32) else c.

End Char.

(** ** Strings: the [str] methods the parser calls *)

Module Str.

Fixpoint map (f : ascii -> ascii) (s : string) : string :=
  match s with
  | EmptyString => EmptyString
  | String c s' => String (f c) (map f s')
  end.

(** [s.lower()] on text of code points 0..255. The parser calls it on
    its category tags only. *)
Definition lower (s : string) : string := map Char.lower s.

(** [s.replace(c, '')] for a one-character [c]. *)
Fixpoint remove (c : ascii) (s : string) : string :=
  match s with
  | EmptyString => EmptyString
  | String a s' => if Ascii.eqb a c then remove c s' else String a (remove c s')
  end.

Fixpoint lstrip (s : string) : string :=
  match s with
  | String c s' => if Char.is_space c then lstrip s' else s
  | EmptyString => EmptyString
  end.

Fixpoint rstrip (s : string) : string :=
  match s with
  | EmptyString => EmptyString
  | String c s' =>
      match rstrip s' with
      | EmptyString => if Char.is_space c then EmptyString else String c EmptyString
      | t => String c t
      end
  end.

(** [s.strip()] *)
Definition strip (s : string) : string := rstrip (lstrip s).

(** [s.rstrip(c)] for a one-character [c]. *)
Fixpoint rstrip_char (x : ascii) (s : string) : string :=
  match s with
  | EmptyString => EmptyString
  | String c s' =>
      match rstrip_char x s' with
      | EmptyString => if Ascii.eqb c x then EmptyString else String c EmptyString
      | t => String c t
      end
  end.

(** The first [n] characters of [s]. *)
Fixpoint take (n : nat) (s : string) : string :=
  match n, s with
  | S n', String c s' => String c (take n' s')
  | _, _ => EmptyString
  end.

(** [s] is [w] followed by [rest]: the text [w] consumed between two
    positions of a scan. *)
Definition consumed (s rest : string) : string :=
  take (String.length s - String.length rest) s.

(** [sub in s] *)
Definition contains (sub s : string) : Prop :=
  exists pre post, s = pre ++ sub ++ post.

End Str.

(** ** Regular expressions: the fragment of [re] syntax the parser uses *)

Module Re.

(** Members of a bracket expression. *)
Inductive item : Type :=
| ILit (c : ascii)              (* a literal character *)
| IRange (lo hi : ascii)        (* [lo-hi] *)
| IDigit                        (* \d *)
| ISpace.                       (* \s *)

(** One-character matchers. *)
Inductive cclass : Type :=
| CAny                          (* . under DOTALL *)
| CLit (c : ascii)              (* a literal character *)
| CDigit                        (* \d *)
| CSpace                        (* \s *)
| CSet (negated : bool) (items : list item).   (* [...] and [^...] *)

Inductive regex : Type :=
| Empty
| Chr (cl : cclass)
| Cat (r1 r2 : regex)
| Alt (r1 r2 : regex)                                   (* r1|r2 *)
| Opt (r : regex)                                       (* (?:r)? *)
| Rep (greedy : bool) (lo : nat) (hi : option nat) (cl : cclass)
                                  (* cl{lo,hi}, cl*, cl+ and the lazy forms *)
| Grp (name : option string) (r : regex).     (* (?P<name>r) and (r) *)

(** Flags of [re.compile]: only IGNORECASE changes what a character
    matcher accepts (DOTALL is built into [CAny]). *)
Definition item_match (ignorecase : bool) (it : item) (c : ascii) : bool :=
  match it with
  | ILit p =>
      if ignorecase then Ascii.eqb (Char.lower c) (Char.lower p) else Ascii.eqb c p
  | IRange lo hi =>
      let inr x := Char.between (Char.code lo) (Char.code hi) x in
      inr c || (ignorecase && (inr (Char.lower c) || inr (Char.upper c)))
  | IDigit => Char.is_digit c
  | ISpace => Char.is_space c
  end.

Definition class_match (ignorecase : bool) (cl : cclass) (c : ascii) : bool :=
  match cl with
  | CAny => true
  | CLit p => item_match ignorecase (ILit p) c
  | CDigit => Char.is_digit c
  | CSpace => Char.is_space c
  | CSet negated items =>
      xorb negated (existsb (fun it => item_match ignorecase it c) items)
  end.

(** The named groups that took part in a match, with the text each
    captured: [match.groupdict()] without its [None] entries. *)
Abbreviation groups := (gmap string string).

Section Matcher.

Context {A : Type}.

(** Greedy repetition of a one-character matcher: take a character
    while allowed, fall back to stopping here. *)
Fixpoint rep_greedy (p : ascii -> bool) (lo : nat) (hi : option nat)
    (s : string) (k : string -> option A) {struct s} : option A :=
  match s with
  | String c s' =>
      if p c && negb (bool_decide (hi = Some 0%nat)) then
        match rep_greedy p (Nat.pred lo) (Nat.pred <$> hi) s' k with
        | Some x => Some x
        | None => match lo with O => k s | S _ => None end
        end
      else match lo with O => k s | S _ => None end
  | EmptyString => match lo with O => k s | S _ => None end
  end.

(** Lazy repetition: stop as soon as allowed, take one more character
    only when the rest fails. *)
Fixpoint rep_lazy (p : ascii -> bool) (lo : nat) (hi : option nat)
    (s : string) (k : string -> option A) {struct s} : option A :=
  match lo with
  | O =>
      match k s with
      | Some x => Some x
      | None =>
          match s with
          | String c s' =>
              if p c && negb (bool_decide (hi = Some 0%nat))
              then rep_lazy p O (Nat.pred <$> hi) s' k else None
          | EmptyString => None
          end
      end
  | S lo' =>
      match s with
      | String c s' =>
          if p c && negb (bool_decide (hi = Some 0%nat))
          then rep_lazy p lo' (Nat.pred <$> hi) s' k else None
      | EmptyString => None
      end
  end.

(** [run ic r s g k]: match [r] at the start of [s] with the groups [g]
    captured so far, then continue with [k] on the rest of the text; on
    failure of [k], backtrack into [r]. *)
Fixpoint run (ic : bool) (r : regex) (s : string) (g : groups)
    (k : string -> groups -> option A) {struct r} : option A :=
  match r with
  | Empty => k s g
  | Chr cl =>
      match s with
      | String c s' => if class_match ic cl c then k s' g else None
      | EmptyString => None
      end
  | Cat r1 r2 => run ic r1 s g (fun s' g' => run ic r2 s' g' k)
  | Alt r1 r2 =>
      match run ic r1 s g k with
      | Some x => Some x
      | None => run ic r2 s g k
      end
  | Opt r1 =>
      match run ic r1 s g k with
      | Some x => Some x
      | None => k s g
      end
  | Rep greedy lo hi cl =>
      (if greedy then rep_greedy else rep_lazy)
        (class_match ic cl) lo hi s (fun s' => k s' g)
  | Grp name r1 =>
      run ic r1 s g (fun s' g' =>
        k s' (match name with
              | Some n => <[n := Str.consumed s s']> g'
              | None => g'
              end))
  end.

End Matcher.

(** A match object: [group(0)] and the named groups that matched. *)
Record match_obj : Type := MatchObj { group0 : string; groupdict : groups }.

(** [pattern.match(s)]: an attempt at the start of [s]. *)
Definition match_at (ic : bool) (r : regex) (s : string) : option match_obj :=
  run ic r s ∅ (fun rest g => Some (MatchObj (Str.consumed s rest) g)).

(** [pattern.search(s)]: the attempt is repeated at each position from
    the left; the first position that matches wins. *)
Fixpoint search (ic : bool) (r : regex) (s : string) : option match_obj :=
  match match_at ic r s with
  | Some m => Some m
  | None =>
      match s with
      | String _ s' => search ic r s'
      | EmptyString => None
      end
  end.

(** Pattern-building shorthands. *)
Fixpoint lit (s : string) : regex :=
  match s with
  | EmptyString => Empty
  | String c EmptyString => Chr (CLit c)
  | String c s' => Cat (Chr (CLit c)) (lit s')
  end.

Fixpoint cat (rs : list regex) : regex :=
  match rs with
  | [] => Empty
  | [r] => r
  | r :: rs' => Cat r (cat rs')
  end.

(** ['|'.join(...)] of alternatives. *)
Fixpoint alt (rs : list regex) : regex :=
  match rs with
  | [] => Empty
  | [r] => r
  | r :: rs' => Alt r (alt rs')
  end.

Definition named (n : string) (r : regex) : regex := Grp (Some n) r.

End Re.

(** ** Python values, exceptions and the builtins the parser calls *)

Module Py.

Inductive exn : Type := ValueError | AttributeError.

(** What a call does: it returns or it raises. *)
Inductive outcome (A : Type) : Type :=
| Return (a : A)
| Raise (e : exn).
Arguments Return {A} a.
Arguments Raise {A} e.

Definition bind {A B : Type} (x : outcome A) (f : A -> outcome B) : outcome B :=
  match x with
  | Return a => f a
  | Raise e => Raise e
  end.

(** A [float]: [Finite neg q] is the double nearest to the decimal
    value [q] it was read from, with its sign; or one of the special
    values. *)
Inductive float : Type :=
| Finite (negative : bool) (magnitude : Q)
| Infinity (negative : bool)
| NaN.

(** A naive [datetime] (seconds are always 0 for the format used). *)
Record datetime : Type :=
  Datetime { year : nat; month : nat; day : nat; hour : nat; minute : nat }.

Inductive value : Type :=
| VStr (s : string)
| VFloat (x : float)
| VDatetime (d : datetime).

Abbreviation dict := (gmap string value).

Definition zero : float := Finite false 0.

(** *** [float(s)] *)

Fixpoint span_digits (s : string) : string * string :=
  match s with
  | String c s' =>
      if Char.is_digit c
      then let '(d, r) := span_digits s' in (String c d, r)
      else (EmptyString, s)
  | EmptyString => (EmptyString, EmptyString)
  end.

Fixpoint digits_value (acc : N) (s : string) : N :=
  match s with
  | String c s' => digits_value (acc * 10 + N.of_nat (Char.code c - 48)) s'
  | EmptyString => acc
  end.

(** Underscores are accepted between two digits and nowhere else. *)
Fixpoint drop_underscores (after_digit : bool) (s : string) : option string :=
  match s with
  | EmptyString => Some EmptyString
  | String c s' =>
      if Ascii.eqb c "_" then
        match s' with
        | String d _ =>
            if after_digit && Char.is_digit d then drop_underscores false s' else None
        | EmptyString => None
        end
      else String c <$> drop_underscores (Char.is_digit c) s'
  end.

Definition take_sign (s : string) : bool * string :=
  match s with
  | String c s' =>
      if Ascii.eqb c "-" then (true, s')
      else if Ascii.eqb c "+" then (false, s')
      else (false, s)
  | EmptyString => (false, s)
  end.

Definition decimal (int_part frac_part : string) (exponent : Z) : Q :=
  Qred (inject_Z (Z.of_N (digits_value 0 (int_part ++ frac_part)))
        * Qpower (10 # 1) (exponent - Z.of_nat (String.length frac_part))).

(** digits [. digits] [e [sign] digits], with at least one digit in the
    mantissa and nothing left over. *)
Definition parse_number (s : string) : option Q :=
  let '(ip, r1) := span_digits s in
  let '(fp, r2) :=
    match r1 with
    | String c r => if Ascii.eqb c "." then span_digits r else (EmptyString, r1)
    | EmptyString => (EmptyString, r1)
    end in
  if String.eqb ip "" && String.eqb fp "" then None else
  match r2 with
  | EmptyString => Some (decimal ip fp 0)
  | String e r3 =>
      if Ascii.eqb (Char.lower e) "e" then
        let '(neg, r4) := take_sign r3 in
        let '(ed, r5) := span_digits r4 in
        if String.eqb ed "" || negb (String.eqb r5 "") then None
        else let n := Z.of_N (digits_value 0 ed) in
             Some (decimal ip fp (if neg then - n else n))
      else None
  end.

(** Rounding to the nearest double, ties to even: from half way between
    the largest double, [2^1024 - 2^971], and [2^1024] on, the result
    is infinite; up to half of the smallest double, [2^-1074], it is
    zero. *)
Definition overflow : Q := inject_Z (2 ^ 1024 - 2 ^ 970).

Definition underflow : Q := 1 # (2 ^ 1075).

Definition to_float (neg : bool) (q : Q) : float :=
  if Qle_bool overflow q then Infinity neg
  else if Qle_bool q underflow then Finite neg 0
  else Finite neg q.

Definition float_of_string (s : string) : outcome float :=
  match drop_underscores false (Str.strip s) with
  | None => Raise ValueError
  | Some t =>
      let '(neg, body) := take_sign t in
      let low := Str.lower body in
      if String.eqb low "inf" || String.eqb low "infinity" then Return (Infinity neg)
      else if String.eqb low "nan" then Return NaN
      else match parse_number body with
           | Some q => Return (to_float neg q)
           | None => Raise ValueError
           end
  end.

(** *** [datetime.strptime(s, '%d/%m/%y %I:%M %p')] *)

Import Re.

Definition digit : regex := Chr CDigit.
Definition range (lo hi : ascii) : regex := Chr (CSet false [IRange lo hi]).

(** The regular expression [_strptime] builds for the format. *)
Definition strptime_regex : regex :=
  cat [ named "d" (alt [ Cat (lit "3") (range "0" "1"); Cat (range "1" "2") digit;
                         Cat (lit "0") (range "1" "9"); range "1" "9";
                         Cat (lit " ") (range "1" "9") ]);
        lit "/";
        named "m" (alt [ Cat (lit "1") (range "0" "2"); Cat (lit "0") (range "1" "9");
                         range "1" "9" ]);
        lit "/";
        named "y" (Cat digit digit);
        Rep true 1 None CSpace;
        named "I" (alt [ Cat (lit "1") (range "0" "2"); Cat (lit "0") (range "1" "9");
                         range "1" "9" ]);
        lit ":";
        named "M" (alt [ Cat (range "0" "5") digit; digit ]);
        Rep true 1 None CSpace;
        named "p" (alt [ lit "am"; lit "pm" ]) ].

Definition field (g : groups) (n : string) : nat :=
  N.to_nat (digits_value 0 (Str.strip (default "" (g !! n)))).

Definition leap (y : nat) : bool :=
  (Nat.eqb (y mod 4) 0 && negb (Nat.eqb (y mod 100) 0)) || Nat.eqb (y mod 400) 0.

Definition days_in_month (y m : nat) : nat :=
  match m with
  | 2 => if leap y then 29 else 28
  | 4 | 6 | 9 | 11 => 30
  | _ => 31
  end%nat.

Definition strptime (s : string) : outcome datetime :=
  match match_at true strptime_regex s with
  | None => Raise ValueError
  | Some m =>
      if negb (String.eqb (group0 m) s) then Raise ValueError
      else
        let g := groupdict m in
        let yy := field g "y" in
        let y := (if yy <=? 68 then 2000 + yy else 1900 + yy)%nat in
        let pm := String.eqb (Str.lower (default "" (g !! "p"))) "pm" in
        let i := field g "I" in
        let h := (if pm then (if i =? 12 then 12 else i + 12)
                  else (if i =? 12 then 0 else i))%nat in
        if (days_in_month y (field g "m") <? field g "d")%nat then Raise ValueError
        else Return (Datetime y (field g "m") (field g "d") h (field g "M"))
  end.

End Py.

(** ** The parser: [class SwahiliMPESAParser] *)

Module Parser.

Import Re Py.

(** A stretch of pattern text made of literal characters and [\s]. *)
Fixpoint phrase (s : string) : regex :=
  match s with
  | EmptyString => Empty
  | String "\" (String "s" s') => Cat (Chr CSpace) (phrase s')
  | String c s' => Cat (Chr (CLit c)) (phrase s')
  end.

(** [[\d,.]+] *)
Definition amount : regex := Rep true 1 None (CSet false [IDigit; ILit ","; ILit "."]).

(** [\d{1,2}/\d{1,2}/\d{2}] *)
Definition date : regex :=
  cat [ Rep true 1 (Some 2) CDigit; lit "/"; Rep true 1 (Some 2) CDigit; lit "/";
        Rep true 2 (Some 2) CDigit ].

(** [\d{1,2}:\d{2}\s*[AP]M] *)
Definition time : regex :=
  cat [ Rep true 1 (Some 2) CDigit; lit ":"; Rep true 2 (Some 2) CDigit;
        Rep true 0 None CSpace; Chr (CSet false [ILit "A"; ILit "P"]); lit "M" ].

(** [[^0-9]+?] *)
Definition name_no_digit : regex := Rep false 1 None (CSet true [IRange "0" "9"]).

(** [(?:a|b)] *)
Definition either (a b : string) : regex := Alt (lit a) (lit b).

(** [self.base_pattern]:
    [(?P<transaction_id>[A-Z0-9]{10})\s+Imethibitishwa\.?\s*] *)
Definition base_pattern : regex :=
  cat [ named "transaction_id"
          (Rep true 10 (Some 10) (CSet false [IRange "A" "Z"; IRange "0" "9"]));
        Rep true 1 None CSpace; lit "Imethibitishwa";
        Rep true 0 (Some 1) (CLit "."); Rep true 0 None CSpace ].

(** [self.transaction_patterns], in the order of the dictionary. *)
Definition transaction_patterns : list (string * regex) :=
  [ ("KUTUMA",
      cat [ lit "Ksh"; named "kutuma_amount" amount; phrase "\s";
            phrase "imetumwa\skwa\s";
            named "kutuma_recipient" name_no_digit; phrase "\s";
            named "kutuma_phone" (Rep true 10 (Some 10) CDigit); phrase "\s";
            either "tarehe" "siku"; phrase "\s";
            named "kutuma_date" date; phrase "\s";
            phrase "saa\s"; named "kutuma_time" time ]);
    ("KUPOKEA",
      cat [ phrase "Umepokea\sKsh"; named "kupokea_amount" amount; phrase "\s";
            phrase "kutoka\s";
            named "kupokea_sender" name_no_digit; phrase "\s";
            named "kupokea_phone" (Rep true 10 (Some 10) CDigit); phrase "\s";
            phrase "mnamo\s";
            named "kupokea_date" date; phrase "\s";
            phrase "saa\s"; named "kupokea_time" time ]);
    ("SALIO",
      cat [ phrase "Baki\syako\sni:\s";
            phrase "Akaunti\sya\sM-PESA\s:\s";
            lit "Ksh"; named "salio_amount" amount; phrase "\s";
            either "Tarehe" "tarehe"; phrase "\s";
            named "salio_date" date; phrase "\s";
            phrase "saa\s"; named "salio_time" time ]);
    ("KULIPA_TILL",
      cat [ phrase "Umelipa\sKsh"; named "kulipa_amount" amount; phrase "\s";
            phrase "kwa\s"; named "kulipa_merchant" name_no_digit; phrase "\s";
            named "kulipa_date" date; phrase "\s";
            named "kulipa_time" time ]);
    ("DATA",
      cat [ lit "Ksh"; named "data_amount" amount; phrase "\s";
            phrase "zimetumwa\skwa\sSAFARICOM\sDATA\sBUNDLES";
            Opt (phrase "\skwa\sakaunti\sSAFARICOM\sDATA\sBUNDLES"); phrase "\s";
            phrase "mnamo\s";
            named "data_date" date; phrase "\s";
            phrase "saa\s"; named "data_time" time ]);
    ("MJAZO",
      cat [ phrase "Umenunua\sKsh"; named "mjazo_amount" amount; phrase "\s";
            phrase "ya\smjazo\s";
            either "siku" "tarehe"; phrase "\s";
            named "mjazo_date" date; phrase "\s";
            phrase "saa\s"; named "mjazo_time" time ]);
    ("PAYBILL",
      cat [ lit "Ksh"; named "paybill_amount" amount; phrase "\s";
            phrase "imetumwa\skwa\s";
            named "paybill_name" (Rep false 1 None (CSet true [ILit "k"])); phrase "\s";
            phrase "kwa\sakaunti\snambari\s";
            named "paybill_account" (Rep true 1 None CDigit) ]);
    ("KUPOKEA_BANK",
      cat [ phrase "Umepokea\sKsh"; named "kupokea_bank_amount" amount; phrase "\s";
            phrase "kutoka\s"; named "kupokea_bank_name" name_no_digit; phrase "\s";
            named "kupokea_bank_account" (Rep true 1 None CDigit); phrase "\s";
            phrase "mnamo\s";
            named "kupokea_bank_date" date; phrase "\s";
            phrase "saa\s"; named "kupokea_bank_time" time ]);
    ("POCHI_LA_BIASHARA",
      cat [ lit "Ksh"; named "pochi_amount" amount; phrase "\s";
            phrase "imetumwa\skwa\s";
            named "pochi_recipient" name_no_digit; phrase "\s";
            either "tarehe" "siku"; phrase "\s";
            named "pochi_date" date; phrase "\s";
            phrase "saa\s"; named "pochi_time" time ]) ].

(** [self.additional_patterns], in the order of the dictionary. *)
Definition additional_patterns : list (string * regex) :=
  [ ("mpesa_balance",
      cat [ phrase "Baki\s"; either "yako" "mpya";
            alt [ phrase "\sya"; phrase "\smpya\skatika"; phrase "\skatika" ];
            phrase "\sM-PESA\sni\sKsh"; named "mpesa_balance" amount ]);
    ("transaction_cost",
      cat [ phrase "Gharama\sya\s";
            alt [ lit "kutuma"; lit "kununua"; lit "matumizi"; lit "kulipa" ];
            phrase "\sni\sKsh"; named "transaction_cost" amount ]);
    ("daily_limit",
      cat [ phrase "Kiwango\scha\sPesa\sunachoweza\skutuma\skwa\ssiku\sni\s";
            named "daily_limit" amount ]) ].

(** [self.failed_pattern], compiled without flags. *)
Definition failed_pattern : regex :=
  alt [ phrase "Hakuna\spesa\sza\skutosha";
        lit "Imefeli";
        phrase "Umekataa\skuidhinisha\samali";
        phrase "Huduma\shi\shaipatikani" ].

(** [compile_patterns]: the pieces and the complete pattern, compiled
    with IGNORECASE and DOTALL. *)
Definition transaction_part : regex :=
  alt (List.map (fun '(tx_type, pattern) => named tx_type pattern) transaction_patterns).

Definition additional_part : regex :=
  cat (List.map (fun '(_, pattern) => Opt (Cat (Rep false 0 None CAny) pattern))
         additional_patterns).

Definition complete_pattern : regex :=
  cat [ Opt base_pattern; Grp None transaction_part; additional_part ].

Definition pattern_search (message : string) : option match_obj :=
  search true complete_pattern message.

Definition failed_search (message : string) : option match_obj :=
  search false failed_pattern message.

(** [clean_amount] *)
Definition clean_amount (amount_str : value) : outcome float :=
  match amount_str with
  | VStr s =>
      if String.eqb s "" then Return zero
      else
        let cleaned :=
          Str.rstrip_char "." (Str.strip (Str.remove " " (Str.remove "," s))) in
        float_of_string cleaned
  | VFloat (Finite _ q) =>
      if Qeq_bool q 0 then Return zero else Raise AttributeError
  | VFloat _ | VDatetime _ => Raise AttributeError
  end.

(** Truth value of [result.get(key)]. *)
Definition truthy (v : option value) : bool :=
  match v with
  | None => false
  | Some (VStr s) => negb (String.eqb s "")
  | Some (VFloat (Finite _ q)) => negb (Qeq_bool q 0)
  | Some (VFloat _) | Some (VDatetime _) => true
  end.

Definition strip_value (v : value) : value :=
  match v with
  | VStr s => VStr (Str.strip s)
  | _ => v
  end.

(** The loop over [self.transaction_patterns.keys()], left at the first
    category whose group took part in the match. *)
Fixpoint set_type (tx_types : list string) (result : dict) : outcome dict :=
  match tx_types with
  | [] => Return result
  | tx_type :: rest =>
      if truthy (result !! tx_type) then
        let result := <["aina_ya_muamala" := VStr tx_type]> result in
        let amount_key := Str.lower tx_type ++ "_amount" in
        match result !! amount_key with
        | Some v =>
            bind (clean_amount v) (fun a =>
              Return (delete amount_key (<["kiasi" := VFloat a]> result)))
        | None => Return result
        end
      else set_type rest result
  end.

Definition numeric_fields : list (string * string) :=
  [ ("mpesa_balance", "salio_la_mpesa");
    ("transaction_cost", "gharama");
    ("daily_limit", "kikomo_cha_siku") ].

(** The loop over [numeric_fields.items()]. *)
Fixpoint clean_numeric (fields : list (string * string)) (result : dict) : outcome dict :=
  match fields with
  | [] => Return result
  | (eng_key, swa_key) :: rest =>
      match result !! eng_key with
      | Some v =>
          bind (clean_amount v) (fun a =>
            clean_numeric rest (delete eng_key (<[swa_key := VFloat a]> result)))
      | None => clean_numeric rest result
      end
  end.

(** The date and time step. A [ValueError] of [strptime] is swallowed.
    Only strings can be parsed: the text of a non-string value has
    neither the [/] nor the [H:MM AM] shape the format asks for, so
    [strptime] raises [ValueError] on it as well. *)
Definition combine_date_time (result : dict) : dict :=
  match result !! "date", result !! "time" with
  | Some d, Some t =>
      match d, t with
      | VStr ds, VStr ts =>
          match strptime (ds ++ " " ++ ts) with
          | Return dt => delete "time" (delete "date" (<["tarehe_na_saa" := VDatetime dt]> result))
          | Raise _ => result
          end
      | _, _ => result
      end
  | _, _ => result
  end.

(** What [parse_message] may be handed: text, or anything else. *)
Inductive arg : Type :=
| Text (message : string)
| NotText.

(** [parse_message] *)
Definition parse_message (message : arg) : outcome dict :=
  match message with
  | NotText => Return {[ "error" := VStr "Ujumbe lazima uwe maandishi" ]}
  | Text message =>
      match failed_search message with
      | Some failed_match =>
          Return {[ "hali" := VStr "IMESHINDIKANA";
                    "sababu" := VStr (group0 failed_match);
                    "ujumbe_asili" := VStr message ]}
      | None =>
          match pattern_search message with
          | None => Return {[ "error" := VStr "Muundo wa ujumbe hautambuliwi" ]}
          | Some m =>
              let result : dict := VStr <$> groupdict m in
              let result := strip_value <$> result in
              let result := <["hali" := VStr "IMEFAULU"]> result in
              bind (set_type (List.map fst transaction_patterns) result) (fun result =>
              bind (clean_numeric numeric_fields result) (fun result =>
              Return (combine_date_time result)))
          end
      end
  end.

End Parser.

(** * Vocabulary of the properties

    Nothing below is code of the parser: these are the notions the
    theorems are stated with. *)

(** ** What a pattern accepts *)

Module Lang.

Import Re.

Fixpoint all (p : ascii -> bool) (s : string) : bool :=
  match s with
  | EmptyString => true
  | String c s' => p c && all p s'
  end.

Definition within (hi : option nat) (n : nat) : Prop :=
  match hi with
  | Some h => (n <= h)%nat
  | None => True
  end.

(** [matches ic r w]: the whole of [w] is one way of reading [r]. *)
Fixpoint matches (ic : bool) (r : regex) (w : string) : Prop :=
  match r with
  | Empty => w = ""
  | Chr cl => exists c, w = String c "" /\ class_match ic cl c = true
  | Cat r1 r2 => exists w1 w2, w = w1 ++ w2 /\ matches ic r1 w1 /\ matches ic r2 w2
  | Alt r1 r2 => matches ic r1 w \/ matches ic r2 w
  | Opt r1 => w = "" \/ matches ic r1 w
  | Rep _ lo hi cl =>
      (lo <= String.length w)%nat /\ within hi (String.length w)
      /\ all (class_match ic cl) w = true
  | Grp _ r1 => matches ic r1 w
  end.

(** [r] can be read at the start of [s]. *)
Definition starts (ic : bool) (r : regex) (s : string) : Prop :=
  exists w rest, s = w ++ rest /\ matches ic r w.

(** The same, as a test on an IGNORECASE pattern. *)
Definition starts_b (r : regex) (s : string) : bool :=
  match match_at true r s with
  | Some _ => true
  | None => false
  end.

(** Names of the groups of a pattern, and the groups every match sets. *)
Fixpoint names (r : regex) : gset string :=
  match r with
  | Cat r1 r2 | Alt r1 r2 => names r1 ∪ names r2
  | Opt r1 => names r1
  | Grp (Some n) r1 => {[ n ]} ∪ names r1
  | Grp None r1 => names r1
  | _ => ∅
  end.

Fixpoint always_sets (r : regex) : gset string :=
  match r with
  | Cat r1 r2 => always_sets r1 ∪ always_sets r2
  | Alt r1 r2 => always_sets r1 ∩ always_sets r2
  | Grp (Some n) r1 => {[ n ]} ∪ always_sets r1
  | Grp None r1 => always_sets r1
  | _ => ∅
  end.

(** How the groups after a match of [r] relate to those before. *)
Definition grows (r : regex) (g g' : groups) : Prop :=
  dom g ⊆ dom g' /\ always_sets r ⊆ dom g'
  /\ forall n, n ∉ names r -> g' !! n = g !! n.

(** Patterns that cannot make a match fail. *)
Definition total (r : regex) : Prop :=
  forall (A : Type) (k : string -> groups -> option A),
    (forall s g, is_Some (k s g)) -> forall s g, is_Some (run true r s g k).

(** The first and the last character class a pattern asks for. *)
Fixpoint first_class (r : regex) : option cclass :=
  match r with
  | Chr cl => Some cl
  | Cat r1 _ => first_class r1
  | Grp _ r1 => first_class r1
  | Rep _ (S _) _ cl => Some cl
  | _ => None
  end.


(** The last character of [s] satisfies [f]. *)
Fixpoint ends_with (f : ascii -> bool) (s : string) : bool :=
  match s with
  | EmptyString => false
  | String c s' =>
      match s' with
      | EmptyString => f c
      | _ => ends_with f s'
      end
  end.

(** Results of two runs, related by [R] when both succeed. *)
Definition orel {A B} (R : A -> B -> Prop) (x : option A) (y : option B) : Prop :=
  match x, y with
  | Some a, Some b => R a b
  | None, None => True
  | _, _ => False
  end.

Definition lower_groups (g : groups) : groups := Str.lower <$> g.

Definition lower_match (m : match_obj) : match_obj :=
  MatchObj (Str.lower (group0 m)) (lower_groups (groupdict m)).

(** All the characters there are. *)
Definition all_chars : list ascii := List.map ascii_of_nat (seq 0 256).

(** The two texts differ at most in the case of their letters. *)
Fixpoint same_letters (s s' : string) : bool :=
  match s, s' with
  | EmptyString, EmptyString => true
  | String c t, String c' t' =>
      Ascii.eqb (Char.lower c) (Char.lower c') && same_letters t t'
  | _, _ => false
  end.

(** The leftmost place of [text] where the IGNORECASE pattern [r] can be
    read, as [search] finds it: the groups of the match and the text
    after it. *)
Fixpoint find (r : regex) (text : string) : option (groups * string) :=
  match run true r text ∅ (fun rest g => Some (g, rest)) with
  | Some x => Some x
  | None =>
      match text with
      | String _ text' => find r text'
      | EmptyString => None
      end
  end.

End Lang.

(** ** The parser's pattern, taken apart *)

Module Shape.

Import Re Py Parser Lang.

(** The fixed failure phrases, as they read in a message. *)
Definition failure_phrases : list string :=
  [ "Hakuna pesa za kutosha"; "Imefeli"; "Umekataa kuidhinisha amali";
    "Huduma hi haipatikani" ].

(** Every white-space character read as a plain space. *)
Definition spaces (s : string) : string :=
  Str.map (fun c => if Char.is_space c then " "%char else c) s.

(** The grammars of a registry, each wrapped in the group of its tag. *)
Definition branches (l : list (string * regex)) : list regex :=
  List.map (fun '(tx_type, pattern) => named tx_type pattern) l.

(** The grammar registered under a tag. *)
Definition grammar (tag : string) : regex :=
  match List.find (fun x => String.eqb x.1 tag) transaction_patterns with
  | Some x => x.2
  | None => Empty
  end.

(** The part of the complete pattern in front of the trailing
    extractors: the primary transaction fragment. *)
Definition primary : regex := Cat (Opt base_pattern) (Grp None transaction_part).

(** One trailing extractor: [(?:.*?pattern)?]. *)
Definition extractor (pattern : regex) : regex :=
  Opt (Cat (Rep false 0 None CAny) pattern).

(** The trailing-information patterns by position in the registry. *)
Definition trailing (i : nat) : regex :=
  match additional_patterns !! i with
  | Some (_, pattern) => pattern
  | None => Empty
  end.

Definition trailing_patterns : list regex := [ trailing 0; trailing 1; trailing 2 ].

(** Successive searches: each pattern of [rs] is looked for in the text
    the patterns before it have left, which is the text after the match
    of the last one that was found. The groups of all the matches, and
    the text left at the end. *)
Fixpoint scan (rs : list regex) (text : string) : groups * string :=
  match rs with
  | [] => (∅, text)
  | r :: rs' =>
      match find r text with
      | Some (g, rest) => let '(g', rest') := scan rs' rest in (g' ∪ g, rest')
      | None => scan rs' text
      end
  end.


(** The dictionary the normalizing steps of [parse_message] start from,
    and those steps. *)
Definition raw_result (g : groups) : dict :=
  <["hali" := VStr "IMEFAULU"]> (strip_value <$> (VStr <$> g)).

Definition normalize (g : groups) : outcome dict :=
  bind (set_type (List.map fst transaction_patterns) (raw_result g)) (fun result =>
  bind (clean_numeric numeric_fields result) (fun result =>
  Return (combine_date_time result))).

Definition lower_value (v : value) : value :=
  match v with
  | VStr s => VStr (Str.lower s)
  | _ => v
  end.

(** Keys whose value is a constant of the parser, not text of the message. *)
Definition constant_keys : list string := [ "hali"; "aina_ya_muamala" ].

(** [r'] is [r] with the text of the message in lower case. *)
Definition folded (r r' : dict) : Prop :=
  forall key,
    r' !! key = (if bool_decide (key ∈ constant_keys) then r !! key
                 else lower_value <$> r !! key).

Definition same_outcome {A} (R : A -> A -> Prop) (o o' : outcome A) : Prop :=
  match o, o' with
  | Return a, Return a' => R a a'
  | Raise e, Raise e' => e = e'
  | _, _ => False
  end.

(** Same status and same category. *)
Definition same_class (d d' : dict) : Prop :=
  d' !! "hali" = d !! "hali" /\ d' !! "aina_ya_muamala" = d !! "aina_ya_muamala".

End Shape.

(** ** Messages the properties are checked on *)

Module Scenario.

Import Re Py Parser Lang Shape.

#[global] Instance Q_eq_dec : EqDecision Q.
Proof. solve_decision. Defined.

#[global] Instance float_eq_dec : EqDecision float.
Proof. solve_decision. Defined.

#[global] Instance datetime_eq_dec : EqDecision datetime.
Proof. solve_decision. Defined.

#[global] Instance value_eq_dec : EqDecision value.
Proof. solve_decision. Defined.

(** The balance inquiry and the transfer of the specification's
    scenarios; the transfer carries the trailing sentences of the
    message it was taken from. *)
Definition balance_scenario : string :=
  "TAD72CZ6J3 Imethibitishwa. Baki yako ni: Akaunti ya M-PESA : Ksh263.47 Tarehe 13/1/25 saa 5:36 PM.".

Definition send_scenario : string :=
  "TAE16URS8R Imethibitishwa Ksh10.00 imetumwa kwa MERCILINE OSEWE tarehe 14/1/25 saa 6:34 PM. Baki yako ya M-PESA ni Ksh113.47. Gharama ya kutuma ni Ksh0.00. Kiwango cha Pesa unachoweza kutuma kwa siku ni 499,870.00.".

(** An airtime purchase whose cost sentence stands in front of the
    balance sentence. *)
Definition cost_before_balance : string :=
  "Umenunua Ksh5.00 ya mjazo siku 15/1/25 saa 8:44 PM. Gharama ya kununua ni Ksh0.00. Baki mpya ya M-PESA ni Ksh38.47.".

(** An airtime purchase followed by a balance inquiry. *)
Definition purchase_then_balance : string :=
  "Umenunua Ksh5.00 ya mjazo siku 15/1/25 saa 8:44 PM. Baki yako ni: Akaunti ya M-PESA : Ksh263.47 Tarehe 13/1/25 saa 5:36 PM.".

(** A purchase confirmation with a failure phrase in the middle. *)
Definition purchase_with_failure : string :=
  "TAF5BV0XRN Imethibitishwa. Umenunua Ksh5.00 ya mjazo siku 15/1/25 saa 8:44 PM. Imefeli. Baki mpya ya M-PESA ni Ksh38.47.".

(** The balance inquiry of the repository's test messages, followed by
    its cost sentence and by no other trailing sentence. *)
Definition balance_with_cost : string :=
  "TAD72CZ6J3 Imethibitishwa. Baki yako ni: Akaunti ya M-PESA : Ksh263.47 Tarehe 13/1/25 saa 5:36 PM. Gharama ya matumizi ni Ksh0.00.".

(** A receipt that KUPOKEA and KUPOKEA_BANK both read, followed by an
    airtime purchase. *)
Definition receipt_then_purchase : string :=
  "Umepokea Ksh1.00 kutoka John Doe 0729641937 mnamo 13/1/25 saa 5:39 PM. Umenunua Ksh5.00 ya mjazo siku 15/1/25 saa 8:44 PM".

(** One shortest message per category grammar, with the fields it
    states besides the date and the time: the counterparty and the
    reference under the keys of the category and, where the parser
    stores it as a number, the amount. *)
Definition minimal_messages : list (string * string * list (string * value)) :=
  [ ("KUTUMA",
     "Ksh20.00 imetumwa kwa Eliud Otieno 0792469173 tarehe 13/1/25 saa 8:37 PM",
     [ ("kiasi", VFloat (Finite false (20 # 1)));
       ("kutuma_recipient", VStr "Eliud Otieno"); ("kutuma_phone", VStr "0792469173") ]);
    ("KUPOKEA",
     "Umepokea Ksh1.00 kutoka John Doe 0729641937 mnamo 13/1/25 saa 5:39 PM",
     [ ("kiasi", VFloat (Finite false (1 # 1)));
       ("kupokea_sender", VStr "John Doe"); ("kupokea_phone", VStr "0729641937") ]);
    ("SALIO",
     "Baki yako ni: Akaunti ya M-PESA : Ksh263.47 Tarehe 13/1/25 saa 5:36 PM",
     [ ("kiasi", VFloat (Finite false (26347 # 100))) ]);
    ("KULIPA_TILL",
     "Umelipa Ksh20.00 kwa JUDITH ATIENO WERE 14/1/25 4:53 PM",
     [ ("kulipa_merchant", VStr "JUDITH ATIENO WERE") ]);
    ("DATA",
     "Ksh50.00 zimetumwa kwa SAFARICOM DATA BUNDLES mnamo 14/1/25 saa 6:30 PM",
     [ ("kiasi", VFloat (Finite false (50 # 1))) ]);
    ("MJAZO",
     "Umenunua Ksh5.00 ya mjazo siku 15/1/25 saa 8:44 PM",
     [ ("kiasi", VFloat (Finite false (5 # 1))) ]);
    ("PAYBILL",
     "Ksh100.00 imetumwa kwa EQUITY PAYBILL kwa akaunti nambari 247247",
     [ ("kiasi", VFloat (Finite false (100 # 1)));
       ("paybill_name", VStr "EQUITY PAYBILL"); ("paybill_account", VStr "247247") ]);
    ("KUPOKEA_BANK",
     "Umepokea Ksh500.00 kutoka EQUITY BANK 247247 mnamo 13/1/25 saa 5:39 PM",
     [ ("kiasi", VFloat (Finite false (500 # 1)));
       ("kupokea_bank_name", VStr "EQUITY BANK");
       ("kupokea_bank_account", VStr "247247") ]);
    ("POCHI_LA_BIASHARA",
     "Ksh10.00 imetumwa kwa MERCILINE OSEWE tarehe 14/1/25 saa 6:34 PM",
     [ ("pochi_recipient", VStr "MERCILINE OSEWE") ]) ].

(** What the parser does with the minimal message of a category. *)
Definition minimal_ok (tag message : string) (fields : list (string * value)) : Prop :=
  (* the message is a text of this grammar and of no other, but that
     the ten-digit phone number of the KUPOKEA message is also an
     account number for KUPOKEA_BANK *)
  Forall (fun x =>
    is_Some (search true x.2 message) ->
    x.1 = tag \/ (tag = "KUPOKEA" /\ x.1 = "KUPOKEA_BANK")) transaction_patterns
  /\ match parse_message (Text message) with
     | Raise _ => False
     | Return d =>
         d !! "hali" = Some (VStr "IMEFAULU")
         /\ d !! "aina_ya_muamala" = Some (VStr tag)
         (* no other category took part *)
         /\ Forall (fun x => x.1 <> tag -> d !! x.1 = None) transaction_patterns
         (* the fields the message states *)
         /\ Forall (fun field => d !! field.1 = Some field.2) fields
     end.

#[global] Instance minimal_ok_dec tag message fields :
  Decision (minimal_ok tag message fields).
Proof. unfold minimal_ok. destruct (parse_message (Text message)); apply _. Defined.

End Scenario.

(** ** What the fields of a result hold *)

Module Fields.

Import Re Py Parser Lang Shape.

#[global] Instance item_eq_dec : EqDecision item.
Proof. solve_decision. Defined.

#[global] Instance cclass_eq_dec : EqDecision cclass.
Proof. solve_decision. Defined.

#[global] Instance regex_eq_dec : EqDecision regex.
Proof. solve_decision. Defined.






Definition digit_or_point (c : ascii) : bool := Char.is_digit c || Ascii.eqb c ".".







End Fields.

(** * Facts about the matcher and the parser *)

(** Equations between closed terms, checked by evaluation. *)
Ltac by_evaluation :=
  lazymatch goal with |- _ = ?rhs => vm_cast_no_check (@eq_refl _ rhs) end.

(** ** Facts about strings *)

Module StrFacts.

Lemma append_nil_r (s : string) : s ++ "" = s.
Proof. induction s as [|c s IH]; simpl; [reflexivity | now rewrite IH]. Qed.

Lemma append_assoc (a b c : string) : (a ++ b) ++ c = a ++ (b ++ c).
Proof. induction a as [|x a IH]; simpl; [reflexivity | now rewrite IH]. Qed.

Lemma length_append (a b : string) :
  String.length (a ++ b) = (String.length a + String.length b)%nat.
Proof. induction a as [|x a IH]; simpl; [reflexivity | now rewrite IH]. Qed.

Lemma take_app (a b : string) : Str.take (String.length a) (a ++ b) = a.
Proof. induction a as [|x a IH]; simpl; [now destruct b | now rewrite IH]. Qed.

Lemma consumed_app (w rest : string) : Str.consumed (w ++ rest) rest = w.
Proof.
  unfold Str.consumed. rewrite length_append.
  replace (String.length w + String.length rest - String.length rest)%nat
    with (String.length w) by lia.
  apply take_app.
Qed.

Lemma contains_app_l (sub s pre : string) :
  Str.contains sub s -> Str.contains sub (pre ++ s).
Proof.
  intros (a & b & ->). exists (pre ++ a), b. now rewrite append_assoc.
Qed.

Lemma contains_cons (sub s : string) (c : ascii) :
  Str.contains sub s -> Str.contains sub (String c s).
Proof. apply (contains_app_l sub s (String c "")). Qed.

End StrFacts.

(** ** What a pattern accepts, and the matcher against it *)

Module ReFacts.

Import Re Lang StrFacts.

Lemma grows_refl r g : always_sets r = ∅ -> grows r g g.
Proof. intros H. unfold grows. rewrite H. set_solver. Qed.

Lemma grows_cat r1 r2 g g1 g2 :
  grows r1 g g1 -> grows r2 g1 g2 -> grows (Cat r1 r2) g g2.
Proof.
  unfold grows. simpl. intros (D1 & S1 & F1) (D2 & S2 & F2).
  split; [set_solver|]. split; [set_solver|].
  intros n Hn. rewrite F2, F1; set_solver.
Qed.

Lemma grows_alt_l r1 r2 g g' : grows r1 g g' -> grows (Alt r1 r2) g g'.
Proof.
  unfold grows. simpl. intros (D & S & F).
  split; [set_solver|]. split; [set_solver|]. intros n Hn. apply F. set_solver.
Qed.

Lemma grows_alt_r r1 r2 g g' : grows r2 g g' -> grows (Alt r1 r2) g g'.
Proof.
  unfold grows. simpl. intros (D & S & F).
  split; [set_solver|]. split; [set_solver|]. intros n Hn. apply F. set_solver.
Qed.

Lemma grows_opt r g g' : grows r g g' -> grows (Opt r) g g'.
Proof. unfold grows. simpl. intros (D & S & F). split; [set_solver|]. split; [set_solver|]. exact F. Qed.

Lemma grows_grp name r g g' w :
  grows r g g' ->
  grows (Grp name r) g (match name with Some n => <[n := w]> g' | None => g' end).
Proof.
  unfold grows. intros (D & S & F). destruct name as [n|]; simpl.
  - rewrite dom_insert_L. split; [set_solver|]. split; [set_solver|].
    intros m Hm. rewrite lookup_insert_ne by set_solver. apply F. set_solver.
  - auto.
Qed.

(** Keys that are not group names of [r] stay as they were. *)
Lemma grows_dom r g g' : grows r g g' -> dom g' ⊆ dom g ∪ names r.
Proof.
  intros (_ & _ & F) n Hn. destruct (decide (n ∈ names r)); [set_solver|].
  apply elem_of_union_l, elem_of_dom. rewrite <- F by assumption.
  now apply elem_of_dom.
Qed.

Section Run.

Context {A : Type}.
Implicit Types (k : string -> groups -> option A) (j : string -> option A).

Lemma within_pred hi n :
  hi <> Some 0%nat -> within (Nat.pred <$> hi) n -> within hi (S n).
Proof. destruct hi as [[|h]|]; simpl; intros; try congruence; try lia. Qed.

Lemma pred_within hi n :
  within hi (S n) -> hi <> Some 0%nat /\ within (Nat.pred <$> hi) n.
Proof.
  destruct hi as [[|h]|]; simpl; intros; split; try congruence; try lia; auto.
Qed.

Lemma rep_greedy_sound p lo hi s j x :
  rep_greedy p lo hi s j = Some x ->
  exists w rest, s = w ++ rest /\ (lo <= String.length w)%nat
    /\ within hi (String.length w) /\ all p w = true /\ j rest = Some x.
Proof.
  revert lo hi. induction s as [|c s IH]; intros lo hi; simpl.
  - destruct lo; [|discriminate]. intros H. exists "", "".
    repeat split; simpl; auto. destruct hi; simpl; lia.
  - assert (Hstop : match lo with O => j (String c s) | S _ => None end = Some x ->
        exists w rest, String c s = w ++ rest /\ (lo <= String.length w)%nat
          /\ within hi (String.length w) /\ all p w = true /\ j rest = Some x).
    { destruct lo; [|discriminate]. intros H. exists "", (String c s).
      repeat split; simpl; auto. destruct hi; simpl; lia. }
    destruct (p c) eqn:Hp; simpl; [|exact Hstop].
    case_bool_decide as Hhi; simpl; [exact Hstop|].
    destruct (rep_greedy p (Nat.pred lo) (Nat.pred <$> hi) s j) as [y|] eqn:E;
      [|exact Hstop].
    intros Hy. injection Hy as ->.
    destruct (IH _ _ E) as (w & rest & -> & Hlo & Hw & Hall & Hk).
    exists (String c w), rest. simpl. rewrite Hp, Hall.
    repeat split; auto; [lia|]. now apply within_pred.
Qed.

Lemma rep_lazy_sound p lo hi s j x :
  rep_lazy p lo hi s j = Some x ->
  exists w rest, s = w ++ rest /\ (lo <= String.length w)%nat
    /\ within hi (String.length w) /\ all p w = true /\ j rest = Some x.
Proof.
  revert lo hi. induction s as [|c s IH]; intros lo hi; simpl.
  - destruct lo; [|discriminate]. destruct (j "") eqn:E; [|discriminate].
    intros H. injection H as ->. exists "", "".
    repeat split; simpl; auto. destruct hi; simpl; lia.
  - assert (Hmore : forall lo',
        (if p c && negb (bool_decide (hi = Some 0%nat))
         then rep_lazy p lo' (Nat.pred <$> hi) s j else None) = Some x ->
        exists w rest, String c s = w ++ rest /\ (S lo' <= String.length w)%nat
          /\ within hi (String.length w) /\ all p w = true /\ j rest = Some x).
    { intros lo'. destruct (p c) eqn:Hp; simpl; [|discriminate].
      case_bool_decide as Hhi; simpl; [discriminate|]. intros E.
      destruct (IH _ _ E) as (w & rest & -> & Hlo & Hw & Hall & Hk).
      exists (String c w), rest. simpl. rewrite Hp, Hall.
      repeat split; auto; [lia|]. now apply within_pred. }
    destruct lo as [|lo'].
    + destruct (j (String c s)) eqn:E.
      * intros H. injection H as ->. exists "", (String c s).
        repeat split; simpl; auto. destruct hi; simpl; lia.
      * intros H. destruct (Hmore O H) as (w & rest & ? & ? & ?).
        exists w, rest. repeat split; try tauto; lia.
    + apply Hmore.
Qed.

(** Soundness: a successful run read some prefix [w] of the text as [r]
    and then the continuation succeeded on the rest. *)
Ltac done_run :=
  (split; [|split; [|split]]); simpl;
  eauto using grows_refl, grows_cat, grows_alt_l, grows_alt_r, grows_opt, grows_grp.

Lemma run_sound ic r : forall s g k x,
  run ic r s g k = Some x ->
  exists w rest g', s = w ++ rest /\ matches ic r w /\ grows r g g'
    /\ k rest g' = Some x.
Proof.
  induction r as [|cl|r1 IH1 r2 IH2|r1 IH1 r2 IH2|r1 IH1|greedy lo hi cl|name r1 IH1];
    intros s g k x; simpl.
  - intros H. exists "", s, g. done_run.
  - destruct s as [|c s]; [discriminate|].
    destruct (class_match ic cl c) eqn:E; [|discriminate].
    intros H. exists (String c ""), s, g. done_run.
  - intros H. destruct (IH1 _ _ _ _ H) as (w1 & rest1 & g1 & -> & M1 & G1 & H1).
    destruct (IH2 _ _ _ _ H1) as (w2 & rest & g2 & -> & M2 & G2 & H2).
    exists (w1 ++ w2), rest, g2. rewrite append_assoc. done_run.
  - destruct (run ic r1 s g k) as [y|] eqn:E.
    + intros H. injection H as ->.
      destruct (IH1 _ _ _ _ E) as (w & rest & g' & -> & M & G & H).
      exists w, rest, g'. done_run.
    + intros H. destruct (IH2 _ _ _ _ H) as (w & rest & g' & -> & M & G & H').
      exists w, rest, g'. done_run.
  - destruct (run ic r1 s g k) as [y|] eqn:E.
    + intros H. injection H as ->.
      destruct (IH1 _ _ _ _ E) as (w & rest & g' & -> & M & G & H).
      exists w, rest, g'. done_run.
    + intros H. exists "", s, g. done_run.
  - intros H.
    assert (exists w rest, s = w ++ rest /\ (lo <= String.length w)%nat
      /\ within hi (String.length w) /\ all (class_match ic cl) w = true
      /\ k rest g = Some x) as (w & rest & -> & ? & ? & ? & ?).
    { destruct greedy; [eapply rep_greedy_sound | eapply rep_lazy_sound]; exact H. }
    exists w, rest, g. done_run.
  - intros H. destruct (IH1 _ _ _ _ H) as (w & rest & g' & -> & M & G & H').
    eexists w, rest, _. done_run.
Qed.

Lemma rep_greedy_complete p lo hi w rest j :
  (lo <= String.length w)%nat -> within hi (String.length w) ->
  all p w = true -> is_Some (j rest) ->
  is_Some (rep_greedy p lo hi (w ++ rest) j).
Proof.
  revert lo hi. induction w as [|c w IH]; intros lo hi Hlo Hhi Hall Hk; simpl in *.
  - assert (lo = O) as -> by lia.
    destruct rest as [|c s]; simpl; [exact Hk|].
    destruct (p c && _); [|exact Hk].
    destruct (rep_greedy _ _ _ _ _); [eauto | exact Hk].
  - apply andb_true_iff in Hall as [Hp Hall]. rewrite Hp.
    apply pred_within in Hhi as [Hne Hhi].
    rewrite bool_decide_eq_false_2 by exact Hne. simpl.
    destruct (IH (Nat.pred lo) (Nat.pred <$> hi)) as [y Hy]; auto; [lia|].
    rewrite Hy. eauto.
Qed.

Lemma rep_lazy_complete p lo hi w rest j :
  (lo <= String.length w)%nat -> within hi (String.length w) ->
  all p w = true -> is_Some (j rest) ->
  is_Some (rep_lazy p lo hi (w ++ rest) j).
Proof.
  revert lo hi. induction w as [|c w IH]; intros lo hi Hlo Hhi Hall Hk; simpl in *.
  - assert (lo = O) as -> by lia. destruct Hk as [y Hy].
    destruct rest; simpl; rewrite Hy; eauto.
  - apply andb_true_iff in Hall as [Hp Hall].
    apply pred_within in Hhi as [Hne Hhi].
    destruct lo as [|lo'].
    + destruct (j (String c (w ++ rest))); [eauto|].
      rewrite Hp, bool_decide_eq_false_2 by exact Hne. simpl.
      apply IH; auto. lia.
    + rewrite Hp, bool_decide_eq_false_2 by exact Hne. simpl.
      apply IH; auto. lia.
Qed.

(** Completeness: when a prefix reads as [r] and the continuation
    accepts what follows whatever was captured, the run succeeds. *)
Lemma run_complete ic r : forall w rest g k,
  matches ic r w -> (forall g', is_Some (k rest g')) ->
  is_Some (run ic r (w ++ rest) g k).
Proof.
  induction r as [|cl|r1 IH1 r2 IH2|r1 IH1 r2 IH2|r1 IH1|greedy lo hi cl|name r1 IH1];
    intros w rest g k M Hk; simpl in *.
  - subst w. apply Hk.
  - destruct M as (c & -> & Hc). simpl. rewrite Hc. apply Hk.
  - destruct M as (w1 & w2 & -> & M1 & M2). rewrite append_assoc.
    apply IH1; [exact M1|]. intros g'. now apply IH2.
  - destruct M as [M|M].
    + destruct (IH1 w rest g k M Hk) as [y ->]. eauto.
    + destruct (run ic r1 (w ++ rest) g k); [eauto|]. apply IH2; auto.
  - destruct M as [->|M].
    + simpl. destruct (run ic r1 rest g k); [eauto | apply Hk].
    + destruct (IH1 w rest g k M Hk) as [y ->]. eauto.
  - destruct M as (Hlo & Hhi & Hall).
    destruct greedy; [apply rep_greedy_complete | apply rep_lazy_complete]; auto.
  - apply IH1; auto.
Qed.

(** A pattern that cannot be read at the start of the text fails. *)
Lemma run_fails ic r s g k : ~ starts ic r s -> run ic r s g k = None.
Proof.
  intros H. destruct (run ic r s g k) eqn:E; [|reflexivity].
  destruct (run_sound _ _ _ _ _ _ E) as (w & rest & g' & -> & M & _).
  exfalso. apply H. now exists w, rest.
Qed.

End Run.

End ReFacts.

Module SearchFacts.
Import Re Lang StrFacts ReFacts.

Lemma match_at_sound ic r s m :
  match_at ic r s = Some m ->
  exists w rest, s = w ++ rest /\ matches ic r w /\ group0 m = w
    /\ grows r ∅ (groupdict m).
Proof.
  unfold match_at. intros H.
  destruct (run_sound _ _ _ _ _ _ H) as (w & rest & g' & -> & M & G & E).
  injection E as <-. exists w, rest. simpl. rewrite consumed_app. auto.
Qed.

Lemma match_at_complete ic r s : starts ic r s -> is_Some (match_at ic r s).
Proof.
  intros (w & rest & -> & M). unfold match_at. apply run_complete; eauto.
Qed.

Lemma match_at_none ic r s : ~ starts ic r s -> match_at ic r s = None.
Proof. apply run_fails. Qed.

(** [search] returns the attempt at the first position that matches. *)
Lemma search_sound ic r s m :
  search ic r s = Some m ->
  exists pre t, s = pre ++ t /\ match_at ic r t = Some m.
Proof.
  induction s as [|c s IH]; simpl.
  - destruct (match_at ic r "") eqn:E; [|discriminate].
    intros H. injection H as ->. now exists "", "".
  - destruct (match_at ic r (String c s)) eqn:E.
    + intros H. injection H as ->. now exists "", (String c s).
    + intros H. destruct (IH H) as (pre & t & -> & Ht).
      now exists (String c pre), t.
Qed.

Lemma search_complete ic r pre t :
  starts ic r t -> is_Some (search ic r (pre ++ t)).
Proof.
  intros H. induction pre as [|c pre IH]; simpl.
  - destruct (match_at_complete _ _ _ H) as [m Hm].
    destruct t; simpl; rewrite Hm; eauto.
  - destruct (match_at ic r (String c (pre ++ t))); eauto.
Qed.

Lemma search_none ic r s :
  (forall pre t, s = pre ++ t -> ~ starts ic r t) -> search ic r s = None.
Proof.
  intros H. destruct (search ic r s) as [m|] eqn:E; [|reflexivity].
  destruct (search_sound _ _ _ _ E) as (pre & t & -> & Ht).
  exfalso. apply (H pre t eq_refl).
  destruct (match_at_sound _ _ _ _ Ht) as (w & rest & -> & M & _).
  now exists w, rest.
Qed.

(** The matched text is part of the text searched and reads as [r]. *)
Lemma search_group0 ic r s m :
  search ic r s = Some m ->
  Str.contains (group0 m) s /\ matches ic r (group0 m).
Proof.
  intros H. destruct (search_sound _ _ _ _ H) as (pre & t & -> & Ht).
  destruct (match_at_sound _ _ _ _ Ht) as (w & rest & -> & M & -> & _).
  split; [now exists pre, rest | exact M].
Qed.

End SearchFacts.

Module FailureFacts.
Import Re Py Parser Lang Shape StrFacts ReFacts SearchFacts.

Lemma phrase_accepted phrase :
  In phrase failure_phrases -> matches false failed_pattern phrase.
Proof.
  intros H.
  assert (exists m, match_at false failed_pattern phrase = Some m /\ group0 m = phrase)
    as (m & Hm & H0).
  { simpl in H. destruct H as [<-|[<-|[<-|[<-|[]]]]]; eexists; split;
      vm_compute; reflexivity. }
  destruct (match_at_sound _ _ _ _ Hm) as (w & rest & _ & M & Hw & _).
  congruence.
Qed.

Lemma accepted_is_phrase w :
  matches false failed_pattern w -> In (spaces w) failure_phrases.
Proof.
  intros H. unfold failed_pattern in H. simpl in H.
  repeat match goal with
  | H : _ \/ _ |- _ => destruct H
  | H : exists _, _ |- _ => destruct H
  | H : _ /\ _ |- _ => destruct H
  | H : Ascii.eqb _ _ = true |- _ => apply Ascii.eqb_eq in H
  end; subst; unfold spaces; simpl;
  repeat match goal with H : Char.is_space _ = true |- _ => rewrite H; clear H end;
  simpl; tauto.
Qed.

End FailureFacts.

Module NormFacts.
Import Re Py Parser Lang Shape StrFacts ReFacts SearchFacts.

Lemma bind_Return {A B} (x : outcome A) (f : A -> outcome B) b :
  bind x f = Return b -> exists a, x = Return a /\ f a = Return b.
Proof. destruct x as [a|e]; simpl; [eauto | discriminate]. Qed.

(** The normalizing loops leave every key alone that they do not name. *)
Lemma set_type_frame tx_types (result result' : dict) key :
  set_type tx_types result = Return result' ->
  key <> "aina_ya_muamala" -> key <> "kiasi" ->
  Forall (fun t => key <> Str.lower t ++ "_amount") tx_types ->
  result' !! key = result !! key.
Proof.
  intros H Ha Hk Hall. induction Hall as [|t ts Ht _ IH]; simpl in H.
  - now injection H as <-.
  - destruct (truthy (result !! t)); [|auto].
    destruct (_ !! (Str.lower t ++ "_amount")) as [v|].
    + destruct (clean_amount v) as [a|e]; simpl in H; [|discriminate].
      injection H as <-.
      rewrite lookup_delete_ne, !lookup_insert_ne by congruence. reflexivity.
    + injection H as <-. rewrite lookup_insert_ne by congruence. reflexivity.
Qed.

Lemma clean_numeric_frame fields (result result' : dict) key :
  clean_numeric fields result = Return result' ->
  Forall (fun '(eng_key, swa_key) => key <> eng_key /\ key <> swa_key) fields ->
  result' !! key = result !! key.
Proof.
  intros H Hall. revert result H.
  induction Hall as [|[e s] fs [He Hs] _ IH]; intros result H; simpl in H.
  - now injection H as <-.
  - destruct (result !! e) as [v|]; [|auto].
    destruct (clean_amount v) as [a|x]; simpl in H; [|discriminate].
    rewrite (IH _ H), lookup_delete_ne, lookup_insert_ne by congruence. reflexivity.
Qed.

Lemma combine_date_time_frame (result : dict) key :
  key <> "date" -> key <> "time" -> key <> "tarehe_na_saa" ->
  combine_date_time result !! key = result !! key.
Proof.
  intros Hd Ht Hs. unfold combine_date_time.
  destruct (result !! "date") as [[ds| |]|]; try reflexivity;
    destruct (result !! "time") as [[ts| |]|]; try reflexivity.
  destruct (strptime _); [|reflexivity].
  rewrite !lookup_delete_ne, lookup_insert_ne by congruence. reflexivity.
Qed.

Lemma parse_message_unfold message :
  parse_message (Text message) =
  match failed_search message with
  | Some failed_match =>
      Return {[ "hali" := VStr "IMESHINDIKANA";
                "sababu" := VStr (group0 failed_match);
                "ujumbe_asili" := VStr message ]}
  | None =>
      match pattern_search message with
      | None => Return {[ "error" := VStr "Muundo wa ujumbe hautambuliwi" ]}
      | Some m => normalize (groupdict m)
      end
  end.
Proof. reflexivity. Qed.

Lemma normalize_frame g d key :
  normalize g = Return d ->
  key ∉ [ "aina_ya_muamala"; "kiasi"; "date"; "time"; "tarehe_na_saa";
          "mpesa_balance"; "salio_la_mpesa"; "transaction_cost"; "gharama";
          "daily_limit"; "kikomo_cha_siku";
          "kutuma_amount"; "kupokea_amount"; "salio_amount"; "kulipa_till_amount";
          "data_amount"; "mjazo_amount"; "paybill_amount"; "kupokea_bank_amount";
          "pochi_la_biashara_amount" ] ->
  d !! key = raw_result g !! key.
Proof.
  unfold normalize. intros H Hkey.
  apply bind_Return in H as (r1 & E1 & H).
  apply bind_Return in H as (r2 & E2 & H).
  injection H as <-.
  repeat (apply not_elem_of_cons in Hkey as [? Hkey]).
  rewrite combine_date_time_frame, (clean_numeric_frame _ _ _ _ E2),
    (set_type_frame _ _ _ _ E1); [reflexivity | ..]; try assumption;
    repeat constructor; assumption.
Qed.

Lemma normalize_hali g d :
  normalize g = Return d -> d !! "hali" = Some (VStr "IMEFAULU").
Proof.
  intros H. rewrite (normalize_frame _ _ "hali" H).
  - apply lookup_insert_eq.
  - vm_compute. set_solver.
Qed.

End NormFacts.

(** ** Facts about characters, checked on all 256 of them *)

Module CharFacts.

Import Lang.

Lemma in_all_chars c : In c all_chars.
Proof.
  unfold all_chars. rewrite <- (ascii_nat_embedding c).
  apply in_map, in_seq. pose proof (nat_ascii_bounded c). lia.
Qed.

Lemma by_cases (P : ascii -> bool) :
  forallb P all_chars = true -> forall c, P c = true.
Proof. intros H c. eapply forallb_forall in H; [exact H | apply in_all_chars]. Qed.

Ltac on_all_chars := apply by_cases; vm_compute; reflexivity.

Lemma lower_idem c : Char.lower (Char.lower c) = Char.lower c.
Proof.
  apply Ascii.eqb_eq. revert c. on_all_chars.
Qed.

Lemma is_digit_lower c : Char.is_digit (Char.lower c) = Char.is_digit c.
Proof.
  apply eqb_prop. revert c. on_all_chars.
Qed.

Lemma is_space_lower c : Char.is_space (Char.lower c) = Char.is_space c.
Proof.
  apply eqb_prop. revert c. on_all_chars.
Qed.

Lemma is_upper_lower c : Char.is_upper (Char.lower c) = false.
Proof.
  apply negb_true_iff. revert c. on_all_chars.
Qed.

Lemma digit_lower c : Char.is_digit c = true -> Char.lower c = c.
Proof.
  intros H. apply Ascii.eqb_eq. revert c H.
  enough (forall c, implb (Char.is_digit c) (Ascii.eqb (Char.lower c) c) = true) as E.
  { intros c H. specialize (E c). now rewrite H in E. }
  on_all_chars.
Qed.

(** Case folding of a character that is upper case, and of one that is not. *)
Lemma fold_cases c :
  (Char.is_upper c = true /\ Char.upper (Char.lower c) = c /\ Char.upper c = c)
  \/ Char.lower c = c.
Proof.
  enough (forall c, (Char.is_upper c && Ascii.eqb (Char.upper (Char.lower c)) c
                     && Ascii.eqb (Char.upper c) c)
                    || Ascii.eqb (Char.lower c) c = true) as E.
  { specialize (E c). apply orb_true_iff in E as [E|E].
    - left. apply andb_true_iff in E as [E E3]. apply andb_true_iff in E as [E1 E2].
      apply Ascii.eqb_eq in E2, E3. auto.
    - right. now apply Ascii.eqb_eq. }
  on_all_chars.
Qed.

(** A character that is not a letter is the fold of itself only. *)
Lemma lower_eq_symbol x c :
  Char.is_upper x = false -> Char.is_lower x = false ->
  Ascii.eqb (Char.lower c) x = Ascii.eqb c x.
Proof.
  intros Hu Hl. destruct (fold_cases c) as [(Hc & _ & _)|E]; [|now rewrite E].
  destruct (Ascii.eqb_spec c x) as [->|Hne]; [congruence|].
  apply Ascii.eqb_neq. intros E.
  enough (Char.is_lower (Char.lower c) = true) by congruence.
  clear -Hc. revert c Hc.
  enough (forall c, implb (Char.is_upper c) (Char.is_lower (Char.lower c)) = true) as E.
  { intros c H. specialize (E c). now rewrite H in E. }
  on_all_chars.
Qed.

End CharFacts.

(** ** IGNORECASE patterns do not see the case of the text *)

Module CaseFacts.
Import Re Lang StrFacts ReFacts SearchFacts CharFacts.

Lemma item_match_lower it c :
  item_match true it (Char.lower c) = item_match true it c.
Proof.
  destruct it as [p|lo hi| |]; simpl.
  - now rewrite lower_idem.
  - destruct (fold_cases c) as [(_ & E1 & E2)|E].
    + rewrite lower_idem, E1, E2.
      destruct (Char.between _ _ c), (Char.between _ _ (Char.lower c)); reflexivity.
    + now rewrite !E.
  - apply is_digit_lower.
  - apply is_space_lower.
Qed.

Lemma class_match_lower cl c :
  class_match true cl (Char.lower c) = class_match true cl c.
Proof.
  destruct cl as [|p| | |neg items]; simpl; auto using is_digit_lower, is_space_lower.
  - now rewrite lower_idem.
  - f_equal. induction items as [|it items IH]; simpl; [reflexivity|].
    now rewrite item_match_lower, IH.
Qed.

Lemma length_lower s : String.length (Str.lower s) = String.length s.
Proof. unfold Str.lower. induction s; simpl; congruence. Qed.

Lemma take_lower n s : Str.take n (Str.lower s) = Str.lower (Str.take n s).
Proof.
  unfold Str.lower. revert n. induction s as [|c s IH]; intros [|n]; simpl;
    try reflexivity.
  now rewrite IH.
Qed.

Lemma consumed_lower s rest :
  Str.consumed (Str.lower s) (Str.lower rest) = Str.lower (Str.consumed s rest).
Proof. unfold Str.consumed. now rewrite !length_lower, take_lower. Qed.

Section Simulation.

Context {A B : Type} (R : A -> B -> Prop).

Lemma rep_greedy_lower p lo hi s (j : string -> option A) (j' : string -> option B) :
  (forall c, p (Char.lower c) = p c) ->
  (forall s', orel R (j s') (j' (Str.lower s'))) ->
  orel R (rep_greedy p lo hi s j) (rep_greedy p lo hi (Str.lower s) j').
Proof.
  unfold Str.lower.
  intros Hp Hj. revert lo hi. induction s as [|c s IH]; intros lo hi; simpl.
  - destruct lo; [apply (Hj "") | exact I].
  - rewrite Hp.
    assert (Hstop : orel R (match lo with O => j (String c s) | S _ => None end)
      (match lo with O => j' (String (Char.lower c) (Str.map Char.lower s)) | S _ => None end)).
    { destruct lo; [apply (Hj (String c s)) | exact I]. }
    destruct (p c && _); [|exact Hstop].
    specialize (IH (Nat.pred lo) (Nat.pred <$> hi)).
    destruct (rep_greedy p _ _ s j), (rep_greedy p _ _ (Str.map Char.lower s) j');
      simpl in IH; try contradiction; auto.
Qed.

Lemma rep_lazy_lower p lo hi s (j : string -> option A) (j' : string -> option B) :
  (forall c, p (Char.lower c) = p c) ->
  (forall s', orel R (j s') (j' (Str.lower s'))) ->
  orel R (rep_lazy p lo hi s j) (rep_lazy p lo hi (Str.lower s) j').
Proof.
  unfold Str.lower.
  intros Hp Hj. revert lo hi. induction s as [|c s IH]; intros lo hi; simpl.
  - destruct lo; [|exact I]. pose proof (Hj "") as H. simpl in H.
    destruct (j ""), (j' ""); simpl in *; auto.
  - rewrite Hp.
    assert (Hmore : forall lo',
      orel R (if p c && negb (bool_decide (hi = Some 0%nat))
              then rep_lazy p lo' (Nat.pred <$> hi) s j else None)
             (if p c && negb (bool_decide (hi = Some 0%nat))
              then rep_lazy p lo' (Nat.pred <$> hi) (Str.map Char.lower s) j' else None)).
    { intros lo'. destruct (p c && _); [apply IH | exact I]. }
    destruct lo as [|lo']; [|apply Hmore].
    pose proof (Hj (String c s)) as H. simpl in H.
    destruct (j (String c s)), (j' (String (Char.lower c) (Str.map Char.lower s)));
      simpl in *; try contradiction; auto.
Qed.

Lemma run_lower r : forall s g (k : string -> groups -> option A)
    (k' : string -> groups -> option B),
  (forall s' g', orel R (k s' g') (k' (Str.lower s') (lower_groups g'))) ->
  orel R (run true r s g k) (run true r (Str.lower s) (lower_groups g) k').
Proof.
  induction r as [|cl|r1 IH1 r2 IH2|r1 IH1 r2 IH2|r1 IH1|greedy lo hi cl|name r1 IH1];
    intros s g k k' Hk; simpl.
  - apply Hk.
  - destruct s as [|c s]; simpl; [exact I|].
    rewrite class_match_lower. destruct (class_match true cl c); [apply Hk | exact I].
  - apply IH1. intros s' g'. now apply IH2.
  - specialize (IH1 s g k k' Hk). specialize (IH2 s g k k' Hk).
    destruct (run true r1 s g k), (run true r1 (Str.lower s) (lower_groups g) k');
      simpl in IH1; try contradiction; auto.
  - specialize (IH1 s g k k' Hk). specialize (Hk s g).
    destruct (run true r1 s g k), (run true r1 (Str.lower s) (lower_groups g) k');
      simpl in IH1; try contradiction; auto.
  - destruct greedy; [apply rep_greedy_lower | apply rep_lazy_lower];
      auto using class_match_lower.
  - apply IH1. intros s' g'. destruct name as [n|]; [|apply Hk].
    rewrite consumed_lower. unfold lower_groups. rewrite <- fmap_insert. apply Hk.
Qed.

End Simulation.

Lemma match_at_lower r s :
  match_at true r (Str.lower s) = lower_match <$> match_at true r s.
Proof.
  unfold match_at.
  pose proof (run_lower (fun m m' => m' = lower_match m) r s ∅
    (fun rest g => Some (MatchObj (Str.consumed s rest) g))
    (fun rest g => Some (MatchObj (Str.consumed (Str.lower s) rest) g))) as H.
  unfold lower_groups in H at 2. rewrite fmap_empty in H.
  lapply H.
  - clear H. intros H.
    destruct (run true r s ∅ _), (run true r (Str.lower s) ∅ _); simpl in *;
      try contradiction; congruence.
  - intros s' g'. simpl. unfold lower_match. simpl. now rewrite consumed_lower.
Qed.

Lemma search_lower r s :
  search true r (Str.lower s) = lower_match <$> search true r s.
Proof.
  induction s as [|c s IH].
  - pose proof (match_at_lower r "") as E. unfold Str.lower in *. simpl in *.
    destruct (match_at true r ""); simpl in *; congruence.
  - pose proof (match_at_lower r (String c s)) as E. unfold Str.lower in *. simpl in *.
    rewrite E. destruct (match_at true r (String c s)); [reflexivity | exact IH].
Qed.

End CaseFacts.

Module LowerFacts.
Import Re Py Parser Lang Shape StrFacts ReFacts SearchFacts CharFacts CaseFacts
  FailureFacts NormFacts.

Lemma lower_cons c s : Str.lower (String c s) = String (Char.lower c) (Str.lower s).
Proof. reflexivity. Qed.

Lemma lower_nil : Str.lower "" = "".
Proof. reflexivity. Qed.

Lemma lower_eq_nil s : Str.lower s = "" <-> s = "".
Proof. destruct s; simpl; split; intros H; try discriminate; reflexivity. Qed.

Lemma lower_lower s : Str.lower (Str.lower s) = Str.lower s.
Proof.
  induction s as [|c s IH]; [reflexivity|].
  rewrite !lower_cons, CharFacts.lower_idem, IH. reflexivity.
Qed.

Lemma same_letters_lower s s' :
  same_letters s s' = true -> Str.lower s = Str.lower s'.
Proof.
  revert s'. induction s as [|c s IH]; intros [|c' s']; simpl; try discriminate.
  - reflexivity.
  - intros H. apply andb_true_iff in H as [Hc Hs]. apply Ascii.eqb_eq in Hc.
    rewrite !lower_cons, Hc. f_equal. now apply IH.
Qed.

Lemma eqb_nil_lower s : String.eqb (Str.lower s) "" = String.eqb s "".
Proof. now destruct s. Qed.

Lemma remove_lower x s :
  Char.is_upper x = false -> Char.is_lower x = false ->
  Str.remove x (Str.lower s) = Str.lower (Str.remove x s).
Proof.
  intros Hu Hl. induction s as [|c s IH]; [reflexivity|].
  rewrite lower_cons. simpl. rewrite lower_eq_symbol by assumption.
  destruct (Ascii.eqb c x); [exact IH|]. now rewrite lower_cons, IH.
Qed.

Lemma lstrip_lower s : Str.lstrip (Str.lower s) = Str.lower (Str.lstrip s).
Proof.
  induction s as [|c s IH]; [reflexivity|].
  rewrite lower_cons. simpl. rewrite is_space_lower.
  destruct (Char.is_space c); [exact IH | reflexivity].
Qed.

Lemma rstrip_lower s : Str.rstrip (Str.lower s) = Str.lower (Str.rstrip s).
Proof.
  induction s as [|c s IH]; [reflexivity|].
  rewrite lower_cons. simpl. rewrite IH, is_space_lower.
  destruct (Str.rstrip s); simpl; [|reflexivity].
  destruct (Char.is_space c); reflexivity.
Qed.

Lemma strip_lower s : Str.strip (Str.lower s) = Str.lower (Str.strip s).
Proof. unfold Str.strip. now rewrite lstrip_lower, rstrip_lower. Qed.

Lemma rstrip_char_lower x s :
  Char.is_upper x = false -> Char.is_lower x = false ->
  Str.rstrip_char x (Str.lower s) = Str.lower (Str.rstrip_char x s).
Proof.
  intros Hu Hl. induction s as [|c s IH]; [reflexivity|].
  rewrite lower_cons. simpl. rewrite IH, lower_eq_symbol by assumption.
  destruct (Str.rstrip_char x s); simpl; [|reflexivity].
  destruct (Ascii.eqb c x); reflexivity.
Qed.

Lemma span_digits_lower s :
  span_digits (Str.lower s) = (fst (span_digits s), Str.lower (snd (span_digits s))).
Proof.
  induction s as [|c s IH]; [reflexivity|].
  rewrite lower_cons. simpl. rewrite is_digit_lower.
  destruct (Char.is_digit c) eqn:E; [|reflexivity].
  rewrite IH. destruct (span_digits s). simpl. now rewrite digit_lower.
Qed.

Lemma drop_underscores_lower b s :
  drop_underscores b (Str.lower s) = Str.lower <$> drop_underscores b s.
Proof.
  revert b. induction s as [|c s IH]; intros b; [reflexivity|].
  rewrite lower_cons. simpl.
  rewrite (lower_eq_symbol "_") by reflexivity. rewrite is_digit_lower.
  destruct (Ascii.eqb c "_").
  - destruct s as [|d s]; [reflexivity|].
    rewrite lower_cons in *. rewrite is_digit_lower.
    destruct (b && Char.is_digit d); [apply IH | reflexivity].
  - rewrite IH. now destruct (drop_underscores (Char.is_digit c) s).
Qed.

Lemma take_sign_lower s :
  take_sign (Str.lower s) = (fst (take_sign s), Str.lower (snd (take_sign s))).
Proof.
  destruct s as [|c s]; [reflexivity|]. rewrite lower_cons. unfold take_sign.
  rewrite !lower_eq_symbol by reflexivity.
  destruct (Ascii.eqb c "-"); [reflexivity|].
  destruct (Ascii.eqb c "+"); reflexivity.
Qed.

Lemma parse_number_lower s : parse_number (Str.lower s) = parse_number s.
Proof.
  unfold parse_number. rewrite span_digits_lower.
  destruct (span_digits s) as [ip r1]. simpl.
  assert (E1 : (match Str.lower r1 with
                | String c r => if Ascii.eqb c "." then span_digits r else ("", Str.lower r1)
                | EmptyString => ("", Str.lower r1)
                end) =
               (let '(fp, r2) := match r1 with
                                 | String c r =>
                                     if Ascii.eqb c "." then span_digits r else ("", r1)
                                 | EmptyString => ("", r1)
                                 end in (fp, Str.lower r2))).
  { destruct r1 as [|c r]; [reflexivity|]. rewrite lower_cons.
    rewrite lower_eq_symbol by reflexivity.
    destruct (Ascii.eqb c "."); [|reflexivity].
    rewrite span_digits_lower. now destruct (span_digits r). }
  rewrite E1. clear E1.
  destruct (match r1 with String c r => _ | EmptyString => _ end) as [fp r2].
  destruct (String.eqb ip "" && String.eqb fp ""); [reflexivity|].
  destruct r2 as [|e r3]; [reflexivity|].
  rewrite lower_cons, CharFacts.lower_idem.
  destruct (Ascii.eqb (Char.lower e) "e"); [|reflexivity].
  rewrite take_sign_lower. destruct (take_sign r3) as [neg r4]. simpl.
  rewrite span_digits_lower. destruct (span_digits r4) as [ed r5]. simpl.
  now rewrite eqb_nil_lower.
Qed.

Lemma float_of_string_lower s : float_of_string (Str.lower s) = float_of_string s.
Proof.
  unfold float_of_string. rewrite strip_lower, drop_underscores_lower.
  destruct (drop_underscores false (Str.strip s)) as [t|]; [|reflexivity]. simpl.
  rewrite take_sign_lower. destruct (take_sign t) as [neg body]. simpl.
  now rewrite lower_lower, parse_number_lower.
Qed.

Lemma clean_amount_lower v : clean_amount (lower_value v) = clean_amount v.
Proof.
  destruct v as [s|x|d]; try reflexivity. simpl.
  rewrite eqb_nil_lower, !remove_lower, strip_lower, rstrip_char_lower,
    float_of_string_lower by reflexivity.
  reflexivity.
Qed.

Lemma truthy_lower v : truthy (lower_value <$> v) = truthy v.
Proof. destruct v as [[s|x|d]|]; try reflexivity. simpl. now rewrite eqb_nil_lower. Qed.

End LowerFacts.

Module CaseNorm.
Import Re Py Parser Lang Shape StrFacts ReFacts SearchFacts CharFacts CaseFacts
  FailureFacts NormFacts LowerFacts.

Lemma folded_insert_constant r r' key v :
  key ∈ constant_keys -> folded r r' -> folded (<[key := v]> r) (<[key := v]> r').
Proof.
  intros Hk H key'. destruct (decide (key = key')) as [<-|Hne].
  - rewrite !lookup_insert_eq. now rewrite bool_decide_eq_true_2.
  - rewrite !lookup_insert_ne by assumption. apply H.
Qed.

Lemma folded_insert_float r r' key x :
  folded r r' -> folded (<[key := VFloat x]> r) (<[key := VFloat x]> r').
Proof.
  intros H key'. destruct (decide (key = key')) as [<-|Hne].
  - rewrite !lookup_insert_eq. now case_bool_decide.
  - rewrite !lookup_insert_ne by assumption. apply H.
Qed.

Lemma folded_delete r r' key : folded r r' -> folded (delete key r) (delete key r').
Proof.
  intros H key'. destruct (decide (key = key')) as [<-|Hne].
  - rewrite !lookup_delete_eq. now case_bool_decide.
  - rewrite !lookup_delete_ne by assumption. apply H.
Qed.

Lemma folded_lookup r r' key :
  key ∉ constant_keys -> folded r r' -> r' !! key = lower_value <$> r !! key.
Proof. intros Hk H. rewrite H. now rewrite bool_decide_eq_false_2. Qed.

Lemma set_type_folded tx_types r r' :
  Forall (fun t => (t ∉ constant_keys) /\ ((Str.lower t ++ "_amount") ∉ constant_keys))
    tx_types ->
  folded r r' ->
  same_outcome folded (set_type tx_types r) (set_type tx_types r').
Proof.
  intros Hall H. induction Hall as [|t ts [Ht Ha] _ IH]; simpl; [exact H|].
  rewrite (folded_lookup _ _ t Ht H), truthy_lower.
  destruct (truthy (r !! t)); [|exact IH].
  assert (H1 : folded (<["aina_ya_muamala" := VStr t]> r) (<["aina_ya_muamala" := VStr t]> r')).
  { apply folded_insert_constant; [set_solver | exact H]. }
  rewrite (folded_lookup _ _ _ Ha H1).
  destruct (_ !! (Str.lower t ++ "_amount")) as [v|]; simpl; [|exact H1].
  rewrite clean_amount_lower.
  destruct (clean_amount v) as [a|e]; simpl; [|reflexivity].
  now apply folded_delete, folded_insert_float.
Qed.

Lemma clean_numeric_folded fields r r' :
  Forall (fun '(eng_key, _) => eng_key ∉ constant_keys) fields ->
  folded r r' ->
  same_outcome folded (clean_numeric fields r) (clean_numeric fields r').
Proof.
  intros Hall. revert r r'.
  induction Hall as [|[e s] fs He _ IH]; intros r r' H; simpl; [exact H|].
  rewrite (folded_lookup _ _ e He H).
  destruct (r !! e) as [v|]; simpl; [|now apply IH].
  rewrite clean_amount_lower.
  destruct (clean_amount v) as [a|x]; simpl; [|reflexivity].
  now apply IH, folded_delete, folded_insert_float.
Qed.

Lemma raw_result_folded g :
  g !! "aina_ya_muamala" = None ->
  folded (raw_result g) (raw_result (lower_groups g)).
Proof.
  intros Hg key. unfold raw_result, lower_groups.
  destruct (decide (key = "hali")) as [->|Hne].
  - rewrite !lookup_insert_eq. reflexivity.
  - rewrite !lookup_insert_ne by congruence. rewrite !lookup_fmap.
    destruct (g !! key) as [w|] eqn:E; simpl; [|now case_bool_decide].
    rewrite strip_lower. case_bool_decide as Hk; [|reflexivity].
    assert (key = "aina_ya_muamala") as -> by set_solver. congruence.
Qed.

Lemma normalize_folded g :
  g !! "aina_ya_muamala" = None ->
  same_outcome same_class (normalize g) (normalize (lower_groups g)).
Proof.
  intros Hg. unfold normalize.
  pose proof (set_type_folded (List.map fst transaction_patterns) _ _
    ltac:(repeat constructor; vm_compute; set_solver) (raw_result_folded g Hg)) as H1.
  destruct (set_type _ (raw_result g)) as [r1|e1],
    (set_type _ (raw_result (lower_groups g))) as [r1'|e1']; cbn [bind same_outcome] in *;
    try contradiction; [|exact H1].
  pose proof (clean_numeric_folded numeric_fields _ _
    ltac:(repeat constructor; vm_compute; set_solver) H1) as H2.
  destruct (clean_numeric _ r1) as [r2|e2], (clean_numeric _ r1') as [r2'|e2'];
    cbn [bind same_outcome] in *; try contradiction; [|exact H2].
  split; rewrite !combine_date_time_frame by discriminate; now rewrite H2.
Qed.

End CaseNorm.

Module OrderFacts.
Import Re Py Parser Lang Shape StrFacts ReFacts SearchFacts CharFacts NormFacts.

Lemma starts_b_true r s : starts_b r s = true <-> starts true r s.
Proof.
  unfold starts_b. split.
  - destruct (match_at true r s) as [m|] eqn:E; [|discriminate]. intros _.
    destruct (match_at_sound _ _ _ _ E) as (w & rest & -> & M & _). now exists w, rest.
  - intros H. now destruct (match_at_complete _ _ _ H) as [m ->].
Qed.

Section Alternation.
Context {A : Type}.

(** An alternation answers with its first branch that does. *)
Lemma alt_picks l : forall s g (k : string -> groups -> option A) x,
  l <> [] ->
  run true (alt (branches l)) s g k = Some x ->
  exists i t p, l !! i = Some (t, p)
    /\ run true (named t p) s g k = Some x
    /\ forall j t' p', (j < i)%nat -> l !! j = Some (t', p') ->
         run true (named t' p') s g k = None.
Proof.
  induction l as [|[t p] l IH]; intros s g k x Hne H; [congruence|].
  destruct l as [|tp' l].
  - exists O, t, p. split; [reflexivity|]. split; [exact H|]. intros j ? ? Hj. lia.
  - change (alt (branches ((t, p) :: tp' :: l)))
      with (Alt (named t p) (alt (branches (tp' :: l)))) in H.
    cbn [run] in H.
    destruct (run true (named t p) s g k) as [y|] eqn:E.
    + exists O, t, p. split; [reflexivity|]. split; [congruence|]. intros j ? ? Hj. lia.
    + destruct (IH s g k x ltac:(discriminate) H) as (i & t1 & p1 & Hi & Hr & Hbefore).
      exists (S i), t1, p1. split; [exact Hi|]. split; [exact Hr|].
      intros [|j] t' p' Hj Hl.
      * simpl in Hl. now injection Hl as <- <-.
      * apply (Hbefore j); [lia | exact Hl].
Qed.

End Alternation.

Lemma total_opt r : total (Opt r).
Proof. intros A k Hk s g. simpl. destruct (run true r s g k); eauto. Qed.

Lemma total_cat r1 r2 : total r1 -> total r2 -> total (Cat r1 r2).
Proof. intros H1 H2 A k Hk s g. simpl. apply H1. intros s' g'. now apply H2. Qed.

Lemma additional_part_unfold :
  additional_part =
  Cat (extractor (trailing 0)) (Cat (extractor (trailing 1)) (extractor (trailing 2))).
Proof. reflexivity. Qed.

(** The trailing extractors never make a match fail. *)
Lemma additional_total : total additional_part.
Proof. rewrite additional_part_unfold. repeat apply total_cat; apply total_opt. Qed.

Lemma first_class_sound ic r cl : forall w,
  first_class r = Some cl -> matches ic r w ->
  exists c w', w = String c w' /\ class_match ic cl c = true.
Proof.
  induction r as [|cl'|r1 IH1 r2 IH2|r1 IH1 r2 IH2|r1 IH1|greedy lo hi cl'|name r1 IH1];
    intros w Hf M; simpl in *; try discriminate.
  - injection Hf as ->. destruct M as (c & -> & Hc). eauto.
  - destruct M as (w1 & w2 & -> & M1 & M2).
    destruct (IH1 _ Hf M1) as (c & w' & -> & Hc). exists c, (w' ++ w2). auto.
  - destruct lo as [|lo]; [discriminate|]. injection Hf as ->.
    destruct M as (Hlo & _ & Hall). destruct w as [|c w]; simpl in *; [lia|].
    apply andb_true_iff in Hall as [Hc _]. eauto.
  - eauto.
Qed.

Lemma strip_nonspace c s : Char.is_space c = false -> Str.strip (String c s) <> "".
Proof.
  intros H. unfold Str.strip. simpl. rewrite H. simpl.
  destruct (Str.rstrip s); [rewrite H|]; discriminate.
Qed.

Lemma letter_not_space x c :
  Char.is_space (Char.lower x) = false ->
  class_match true (CLit x) c = true -> Char.is_space c = false.
Proof.
  simpl. intros Hx E. apply Ascii.eqb_eq in E.
  now rewrite <- CharFacts.is_space_lower, E.
Qed.

Lemma grammar_text_not_blank i t p w :
  transaction_patterns !! i = Some (t, p) -> matches true p w -> Str.strip w <> "".
Proof.
  intros Hi M.
  assert (exists x, first_class p = Some (CLit x) /\ Char.is_space (Char.lower x) = false)
    as (x & Hf & Hx).
  { do 9 (destruct i as [|i]; [injection Hi as <- <-; eexists; split; reflexivity|]).
    discriminate. }
  destruct (first_class_sound _ _ _ _ Hf M) as (c & w' & -> & Hc).
  eapply strip_nonspace, letter_not_space; eauto.
Qed.

(** Category tags are not names of fragments. *)
Lemma tag_not_fragment i t p :
  transaction_patterns !! i = Some (t, p) ->
  (t ∉ names (Opt base_pattern)) /\ (t ∉ names additional_part)
  /\ forall j t' p', transaction_patterns !! j = Some (t', p') -> t ∉ names p'.
Proof.
  intros Hi.
  assert (Forall (fun '(t, _) =>
    (t ∉ names (Opt base_pattern)) /\ (t ∉ names additional_part)
    /\ Forall (fun '(_, p') => t ∉ names p') transaction_patterns) transaction_patterns) as H.
  { apply (bool_decide_unpack _). vm_compute. exact I. }
  eapply Forall_lookup_1 in H; [|exact Hi]. simpl in H.
  destruct H as (H1 & H2 & H3). repeat split; auto.
  intros j t' p' Hj. eapply Forall_lookup_1 in H3; [|exact Hj]. exact H3.
Qed.

Lemma tags_distinct i j t p p' :
  transaction_patterns !! i = Some (t, p) ->
  transaction_patterns !! j = Some (t, p') -> i = j.
Proof.
  intros Hi Hj.
  assert (NoDup (List.map fst transaction_patterns)) as H.
  { apply (bool_decide_unpack _). vm_compute. exact I. }
  eapply NoDup_lookup; [exact H| |];
    change (List.map fst transaction_patterns) with (fst <$> transaction_patterns);
    rewrite list_lookup_fmap; [rewrite Hi | rewrite Hj]; reflexivity.
Qed.

Lemma run_cat {A} ic r1 r2 s g (k : string -> groups -> option A) :
  run ic (Cat r1 r2) s g k = run ic r1 s g (fun s' g' => run ic r2 s' g' k).
Proof. reflexivity. Qed.

Lemma run_unnamed {A} ic r s g (k : string -> groups -> option A) :
  run ic (Grp None r) s g k = run ic r s g k.
Proof. reflexivity. Qed.

Lemma run_named {A} ic n r s g (k : string -> groups -> option A) :
  run ic (named n r) s g k =
  run ic r s g (fun s' g' => k s' (<[n := Str.consumed s s']> g')).
Proof. reflexivity. Qed.

Lemma run_starts {A} ic r s g (k : string -> groups -> option A) x :
  run ic r s g k = Some x -> starts ic r s.
Proof.
  intros H. destruct (run_sound _ _ _ _ _ _ H) as (w & rest & _ & -> & M & _).
  exists w, rest. split; [reflexivity | exact M].
Qed.

Lemma set_type_picks before t after (r r' : dict) :
  Forall (fun t' => truthy (r !! t') = false) before ->
  truthy (r !! t) = true ->
  Str.lower t ++ "_amount" <> "aina_ya_muamala" ->
  set_type (before ++ t :: after) r = Return r' ->
  r' !! "aina_ya_muamala" = Some (VStr t).
Proof.
  intros Hb Ht Hk. induction Hb as [|t' ts Ht' _ IH]; simpl.
  - rewrite Ht. destruct (_ !! (Str.lower t ++ "_amount")) as [v|].
    + destruct (clean_amount v) as [a|e]; simpl; [|discriminate].
      intros H. injection H as <-.
      rewrite lookup_delete_ne, lookup_insert_ne, lookup_insert_eq by congruence.
      reflexivity.
    + intros H. injection H as <-. apply lookup_insert_eq.
  - now rewrite Ht'.
Qed.

Lemma amount_key_not_category i t p :
  transaction_patterns !! i = Some (t, p) ->
  Str.lower t ++ "_amount" <> "aina_ya_muamala".
Proof.
  intros Hi.
  assert (Forall (fun '(t, _) => Str.lower t ++ "_amount" <> "aina_ya_muamala")
    transaction_patterns) as H.
  { apply (bool_decide_unpack _). vm_compute. exact I. }
  eapply Forall_lookup_1 in H; [|exact Hi]. exact H.
Qed.

End OrderFacts.

Module ScanFacts.
Import Re Py Parser Lang Shape StrFacts ReFacts SearchFacts CharFacts OrderFacts.





End ScanFacts.

Module TrailingFacts.
Import Re Py Parser Lang Shape StrFacts ReFacts SearchFacts CharFacts NormFacts
  OrderFacts ScanFacts.

(** The loop over the numeric fields stores a number for every field
    that is present. *)
Lemma clean_numeric_extracts fields (result result' : dict) :
  NoDup (List.map fst fields ++ List.map snd fields) ->
  clean_numeric fields result = Return result' ->
  forall eng_key swa_key, In (eng_key, swa_key) fields ->
    is_Some (result !! eng_key) ->
    exists x, result' !! swa_key = Some (VFloat x).
Proof.
  revert result. induction fields as [|[e0 s0] fields IH]; intros result Hnd H e s Hin He.
  { destruct Hin. }
  simpl in Hnd. apply NoDup_cons in Hnd as [He0 Hnd].
  assert (Hnd' : NoDup (List.map fst fields ++ List.map snd fields)).
  { apply NoDup_app in Hnd as (N1 & N2 & N3). apply NoDup_cons in N3 as [_ N3].
    apply NoDup_app. repeat split; auto. intros y Hy Hy'. apply (N2 y Hy). now right. }
  assert (Hs0 : (s0 ∉ List.map fst fields) /\ (s0 ∉ List.map snd fields) /\ s0 <> e0).
  { apply NoDup_app in Hnd as (N1 & N2 & N3). apply NoDup_cons in N3 as [N3 _].
    repeat split; auto.
    - intros Hy. apply (N2 s0 Hy). now left.
    - intros ->. apply He0. apply elem_of_app. right. now left. }
  assert (He0' : (e0 ∉ List.map fst fields) /\ (e0 ∉ List.map snd fields)).
  { split; intros Hy; apply He0, elem_of_app; [now left | right; now right]. }
  destruct Hs0 as (Hs1 & Hs2 & Hs3), He0' as (He1 & He2).
  simpl in H. destruct Hin as [Hin|Hin].
  - injection Hin as <- <-. destruct He as [v Hv]. rewrite Hv in H.
    apply bind_Return in H as (a & Ha & H). exists a.
    rewrite (clean_numeric_frame _ _ _ _ H).
    + rewrite lookup_delete_ne, lookup_insert_eq by congruence. reflexivity.
    + apply Forall_forall. intros [e' s'] Hin'. split; intros ->.
      * apply Hs1, list_elem_of_In, in_map_iff. exists (e', s').
        split; [reflexivity | now apply list_elem_of_In].
      * apply Hs2, list_elem_of_In, in_map_iff. exists (e', s').
        split; [reflexivity | now apply list_elem_of_In].
  - assert (e <> e0 /\ e <> s0) as [Hne1 Hne2].
    { split; intros ->.
      - apply He1, list_elem_of_In, in_map_iff. now exists (e0, s).
      - apply Hs1, list_elem_of_In, in_map_iff. now exists (s0, s). }
    destruct (result !! e0) as [v|].
    + apply bind_Return in H as (a & Ha & H). eapply IH; eauto.
      rewrite lookup_delete_ne, lookup_insert_ne by congruence. exact He.
    + eapply IH; eauto.
Qed.

End TrailingFacts.

Module ParseFacts.
Import Re Py Parser Lang Shape StrFacts ReFacts SearchFacts CharFacts CaseFacts
  FailureFacts NormFacts LowerFacts CaseNorm.

(** A text the failure pattern accepts starts with a capital and goes
    on with a small letter. *)
Lemma accepted_cases w :
  matches false failed_pattern w ->
  exists c1 c2 w', w = String c1 (String c2 w')
    /\ Char.is_upper c1 = true /\ Char.is_lower c2 = true.
Proof.
  intros H. unfold failed_pattern in H. simpl in H.
  repeat match goal with
  | H : _ \/ _ |- _ => destruct H
  | H : exists _, _ |- _ => destruct H
  | H : _ /\ _ |- _ => destruct H
  | H : Ascii.eqb _ _ = true |- _ => apply Ascii.eqb_eq in H
  end; subst; simpl; eexists _, _, _; repeat split.
Qed.

Lemma map_split f s pre c t :
  Str.map f s = pre ++ String c t ->
  exists pre' a t', s = pre' ++ String a t' /\ c = f a /\ t = Str.map f t'.
Proof.
  revert s. induction pre as [|p pre IH]; intros [|a s]; simpl; try discriminate.
  - intros H. injection H as <- <-. now exists "", a, s.
  - intros H. injection H as <- H. destruct (IH _ H) as (pre' & a' & t' & -> & -> & ->).
    now exists (String a pre'), a', t'.
Qed.

Lemma failed_search_lower message : failed_search (Str.lower message) = None.
Proof.
  apply search_none. intros pre t E (w & rest & -> & M).
  destruct (accepted_cases _ M) as (c1 & c2 & w' & -> & H1 & _).
  simpl in E. apply map_split in E as (_ & a & _ & _ & -> & _).
  now rewrite is_upper_lower in H1.
Qed.

(** Only the groups of the complete pattern are among the groups of a
    match. *)
Lemma pattern_groups_only message m key :
  pattern_search message = Some m -> key ∉ names complete_pattern ->
  groupdict m !! key = None.
Proof.
  intros H Hkey. destruct (search_sound _ _ _ _ H) as (pre & t & _ & Ht).
  destruct (match_at_sound _ _ _ _ Ht) as (_ & _ & _ & _ & _ & G).
  apply not_elem_of_dom. intros Hd. apply grows_dom in G. apply G in Hd.
  rewrite dom_empty_L, union_empty_l_L in Hd. contradiction.
Qed.

Lemma parse_message_lower message :
  failed_search message = None ->
  same_outcome same_class (parse_message (Text message))
    (parse_message (Text (Str.lower message))).
Proof.
  intros Hf. rewrite !parse_message_unfold, Hf, failed_search_lower.
  unfold pattern_search. rewrite search_lower.
  destruct (search true complete_pattern message) as [m|] eqn:E; simpl.
  - apply normalize_folded. apply (pattern_groups_only message); [exact E|].
    apply (bool_decide_unpack _). vm_compute. exact I.
  - split; reflexivity.
Qed.

(** No key of a successful result is named [date] or [time], so the
    step that would combine them never runs. *)
Lemma timestamp_is_never_combined message d :
  parse_message (Text message) = Return d -> d !! "tarehe_na_saa" = None.
Proof.
  rewrite parse_message_unfold.
  destruct (failed_search message) as [fm|].
  { intros H. injection H as <-.
    rewrite !lookup_insert_ne by discriminate. apply lookup_singleton_ne. discriminate. }
  destruct (pattern_search message) as [m|] eqn:Hm.
  2:{ intros H. injection H as <-. apply lookup_singleton_ne. discriminate. }
  unfold normalize. intros H.
  apply bind_Return in H as (r1 & E1 & H). apply bind_Return in H as (r2 & E2 & H).
  injection H as <-.
  assert (Hraw : forall key, key <> "hali" -> key ∉ names complete_pattern ->
            raw_result (groupdict m) !! key = None).
  { intros key Hk Hn. unfold raw_result. rewrite lookup_insert_ne by congruence.
    now rewrite !lookup_fmap, (pattern_groups_only _ _ _ Hm Hn). }
  assert (Hr2 : forall key, In key ["date"; "tarehe_na_saa"] -> r2 !! key = None).
  { intros key Hin.
    rewrite (clean_numeric_frame _ _ _ _ E2), (set_type_frame _ _ _ _ E1).
    - simpl in Hin; destruct Hin as [<-|[<-|[]]];
        (apply Hraw; [discriminate | apply (bool_decide_unpack _); vm_compute; exact I]).
    - simpl in Hin; destruct Hin as [<-|[<-|[]]]; discriminate.
    - simpl in Hin; destruct Hin as [<-|[<-|[]]]; discriminate.
    - simpl in Hin; destruct Hin as [<-|[<-|[]]]; repeat constructor; vm_compute; discriminate.
    - simpl in Hin; destruct Hin as [<-|[<-|[]]]; repeat constructor; discriminate. }
  unfold combine_date_time. rewrite (Hr2 "date") by (simpl; auto).
  apply Hr2. simpl. auto.
Qed.

Lemma run_complete_pattern {A} s g (k : string -> groups -> option A) :
  run true complete_pattern s g k =
  run true primary s g (fun s' g' => run true additional_part s' g' k).
Proof. reflexivity. Qed.

End ParseFacts.

Module CleanFacts.
Import Re Py Parser.

Lemma remove_idempotent c s : Str.remove c (Str.remove c s) = Str.remove c s.
Proof.
  induction s as [|a s IH]; simpl; [reflexivity|].
  destruct (Ascii.eqb a c) eqn:E; simpl; [exact IH|]. now rewrite E, IH.
Qed.

End CleanFacts.

(** ** Successive searches *)

Module FindFacts.
Import Re Py Parser Lang Shape StrFacts ReFacts SearchFacts OrderFacts ParseFacts.

(** *** Runs with continuations that agree *)

Lemma rep_greedy_ext {A} p (j j' : string -> option A) :
  (forall t, j t = j' t) ->
  forall s lo hi, rep_greedy p lo hi s j = rep_greedy p lo hi s j'.
Proof.
  intros E. induction s as [|c s IH]; intros lo hi; simpl.
  - now rewrite E.
  - rewrite IH, E. reflexivity.
Qed.

Lemma rep_lazy_ext {A} p (j j' : string -> option A) :
  (forall t, j t = j' t) ->
  forall s lo hi, rep_lazy p lo hi s j = rep_lazy p lo hi s j'.
Proof.
  intros E. induction s as [|c s IH]; intros lo hi; destruct lo; simpl;
    rewrite ?E, ?IH; reflexivity.
Qed.

Lemma run_ext {A} ic r : forall s g (k k' : string -> groups -> option A),
  (forall s' g', k s' g' = k' s' g') -> run ic r s g k = run ic r s g k'.
Proof.
  induction r as [|cl|r1 IH1 r2 IH2|r1 IH1 r2 IH2|r1 IH1|greedy lo hi cl|name r1 IH1];
    intros s g k k' E; simpl.
  - apply E.
  - destruct s as [|c s]; [reflexivity|]. destruct (class_match ic cl c); auto.
  - apply IH1. intros s' g'. now apply IH2.
  - now rewrite (IH1 _ _ k k' E), (IH2 _ _ k k' E).
  - now rewrite (IH1 _ _ k k' E), E.
  - destruct greedy; [apply rep_greedy_ext | apply rep_lazy_ext]; intros t; apply E.
  - apply IH1. intros s' g'. apply E.
Qed.

(** *** A step that cannot fail, after the run or inside it *)

Section Bind.

Context {A B : Type} (f : A -> option B).
Hypothesis f_total : forall a, is_Some (f a).

Lemma rep_greedy_bind p (j : string -> option A) :
  forall s lo hi,
    rep_greedy p lo hi s (fun t => j t ≫= f) = rep_greedy p lo hi s j ≫= f.
Proof.
  induction s as [|c s IH]; intros lo hi; simpl.
  - destruct lo; reflexivity.
  - destruct (p c && _).
    + rewrite IH. destruct (rep_greedy p (Nat.pred lo) (Nat.pred <$> hi) s j) as [a|]; simpl.
      * destruct (f_total a) as [b ->]. reflexivity.
      * destruct lo; reflexivity.
    + destruct lo; reflexivity.
Qed.

Lemma rep_lazy_bind p (j : string -> option A) :
  forall s lo hi,
    rep_lazy p lo hi s (fun t => j t ≫= f) = rep_lazy p lo hi s j ≫= f.
Proof.
  induction s as [|c s IH]; intros lo hi; destruct lo; simpl.
  - destruct (j "") as [a|]; simpl; [destruct (f_total a) as [b ->]|]; reflexivity.
  - reflexivity.
  - destruct (j (String c s)) as [a|]; simpl.
    + destruct (f_total a) as [b ->]. reflexivity.
    + destruct (p c && _); [apply IH | reflexivity].
  - destruct (p c && _); [apply IH | reflexivity].
Qed.

Lemma run_bind ic r : forall s g (k : string -> groups -> option A),
  run ic r s g (fun s' g' => k s' g' ≫= f) = run ic r s g k ≫= f.
Proof.
  induction r as [|cl|r1 IH1 r2 IH2|r1 IH1 r2 IH2|r1 IH1|greedy lo hi cl|name r1 IH1];
    intros s g k; simpl.
  - reflexivity.
  - destruct s as [|c s]; [reflexivity|]. destruct (class_match ic cl c); reflexivity.
  - rewrite <- IH1. apply run_ext. intros s' g'. apply IH2.
  - rewrite IH1, IH2. destruct (run ic r1 s g k) as [a|]; simpl; [|reflexivity].
    destruct (f_total a) as [b ->]. reflexivity.
  - rewrite IH1. destruct (run ic r1 s g k) as [a|]; simpl; [|reflexivity].
    destruct (f_total a) as [b ->]. reflexivity.
  - destruct greedy; [apply rep_greedy_bind | apply rep_lazy_bind].
  - apply (IH1 s g (fun s' g' => k s' match name with
                                       | Some n => <[n := Str.consumed s s']> g'
                                       | None => g'
                                       end)).
Qed.

End Bind.

(** *** The groups a run starts from only pass through it *)

Lemma run_groups {A} ic r : forall s g (k : string -> groups -> option A),
  run ic r s g k = run ic r s ∅ (fun s' d => k s' (d ∪ g)).
Proof.
  induction r as [|cl|r1 IH1 r2 IH2|r1 IH1 r2 IH2|r1 IH1|greedy lo hi cl|name r1 IH1];
    intros s g k; simpl.
  - now rewrite (left_id_L ∅ (∪)).
  - destruct s as [|c s]; [reflexivity|]. destruct (class_match ic cl c); [|reflexivity].
    now rewrite (left_id_L ∅ (∪)).
  - rewrite IH1. apply run_ext. intros s' d1.
    rewrite IH2. rewrite (IH2 s' d1). apply run_ext. intros s'' d2.
    now rewrite (assoc_L (∪)).
  - now rewrite IH1, IH2.
  - rewrite IH1. now rewrite (left_id_L ∅ (∪)).
  - destruct greedy; [apply rep_greedy_ext | apply rep_lazy_ext]; intros t;
      now rewrite (left_id_L ∅ (∪)).
  - rewrite IH1. apply run_ext. intros s' d. destruct name as [n|]; [|reflexivity].
    now rewrite insert_union_l.
Qed.

(** *** [find] *)

Lemma find_unfold r text :
  find r text =
  match run true r text ∅ (fun rest g => Some (g, rest)) with
  | Some x => Some x
  | None =>
      match text with
      | String _ text' => find r text'
      | EmptyString => None
      end
  end.
Proof. destruct text; reflexivity. Qed.

(** What [find] returns is a reading of the pattern, and no reading
    begins further left. *)
Lemma find_sound r text g rest :
  find r text = Some (g, rest) ->
  exists pre w, text = pre ++ w ++ rest /\ matches true r w /\ grows r ∅ g
    /\ forall pre' t', text = pre' ++ t' ->
         (String.length pre' < String.length pre)%nat -> ~ starts true r t'.
Proof.
  induction text as [|c text IH]; rewrite find_unfold.
  - destruct (run true r "" ∅ _) as [x|] eqn:E; [|discriminate].
    intros H. injection H as ->.
    destruct (run_sound _ _ _ _ _ _ E) as (w & rest' & g' & Hs & M & G & H).
    injection H as <- <-. exists "", w. split; [exact Hs|]. split; [exact M|]. split; [exact G|].
    intros pre' t' _ Hlt. simpl in Hlt. lia.
  - destruct (run true r (String c text) ∅ _) as [x|] eqn:E.
    + intros H. injection H as ->.
      destruct (run_sound _ _ _ _ _ _ E) as (w & rest' & g' & Hs & M & G & H).
      injection H as <- <-. exists "", w.
      split; [exact Hs|]. split; [exact M|]. split; [exact G|].
      intros pre' t' _ Hlt. simpl in Hlt. lia.
    + intros H. destruct (IH H) as (pre & w & -> & M & G & L).
      exists (String c pre), w.
      split; [reflexivity|]. split; [exact M|]. split; [exact G|].
      intros [|c' pre'] t' Ht Hlt.
      * simpl in Ht. subst t'. intros (w' & rest' & Hs & M').
        rewrite Hs in E.
        destruct (run_complete true r w' rest' ∅ (fun rest g => Some (g, rest)) M'
                    ltac:(eauto)) as [y Hy].
        congruence.
      * simpl in Ht. injection Ht as <- Ht. apply (L pre' t' Ht). simpl in Hlt. lia.
Qed.

Lemma find_none r text :
  find r text = None -> forall pre t, text = pre ++ t -> ~ starts true r t.
Proof.
  induction text as [|c text IH]; rewrite find_unfold.
  - destruct (run true r "" ∅ _) as [x|] eqn:E; [discriminate|].
    intros _ pre t Ht (w & rest & -> & M).
    destruct pre; [|discriminate]. simpl in Ht. rewrite Ht in E.
    destruct (run_complete true r w rest ∅ (fun rest g => Some (g, rest)) M
                ltac:(eauto)) as [y Hy].
    congruence.
  - destruct (run true r (String c text) ∅ _) as [x|] eqn:E; [discriminate|].
    intros H [|c' pre] t Ht.
    + simpl in Ht. subst t. intros (w & rest & Hs & M). rewrite Hs in E.
      destruct (run_complete true r w rest ∅ (fun rest g => Some (g, rest)) M
                  ltac:(eauto)) as [y Hy].
      congruence.
    + simpl in Ht. injection Ht as <- Ht. now apply (IH H pre t).
Qed.

(** A run of [r] followed by a step that cannot fail: the first reading
    of [r], then the step. *)
Lemma run_then {A} r s g (k : string -> groups -> option A) :
  (forall s' g', is_Some (k s' g')) ->
  run true r s g k =
  run true r s ∅ (fun rest d => Some (d, rest)) ≫= (fun x => k x.2 (x.1 ∪ g)).
Proof.
  intros Hk. rewrite run_groups.
  rewrite <- (run_bind (fun x : groups * string => k x.2 (x.1 ∪ g))); [reflexivity|].
  intros [d rest]. apply Hk.
Qed.

(** One trailing extractor, [(?:.*?pattern)?], in front of steps that
    cannot fail: the leftmost text of the pattern, if there is one. *)
Lemma extractor_find {A} pattern s g (k : string -> groups -> option A) :
  (forall s' g', is_Some (k s' g')) ->
  run true (extractor pattern) s g k =
  match find pattern s with
  | Some (d, rest) => k rest (d ∪ g)
  | None => k s g
  end.
Proof.
  intros Hk. unfold extractor. simpl run.
  assert (H : forall t,
    rep_lazy (class_match true CAny) 0 None t (fun s' => run true pattern s' g k)
    = match find pattern t with
      | Some (d, rest) => k rest (d ∪ g)
      | None => None
      end).
  { induction t as [|c t IH]; rewrite find_unfold; simpl rep_lazy;
      rewrite (run_then pattern _ g k Hk);
      destruct (run true pattern _ ∅ _) as [[d rest]|]; simpl.
    - destruct (Hk rest (d ∪ g)) as [y ->]. reflexivity.
    - reflexivity.
    - destruct (Hk rest (d ∪ g)) as [y ->]. reflexivity.
    - apply IH. }
  rewrite H. destruct (find pattern s) as [[d rest]|]; [|reflexivity].
  destruct (Hk rest (d ∪ g)) as [y ->]. reflexivity.
Qed.

Lemma extractors_total rs : total (cat (List.map extractor rs)).
Proof.
  induction rs as [|r rs IH]; simpl.
  - intros A k Hk s g. simpl. apply Hk.
  - destruct (List.map extractor rs) eqn:E.
    + apply total_opt.
    + apply total_cat; [apply total_opt | exact IH].
Qed.

(** The trailing extractors in front of steps that cannot fail: the
    successive searches of [scan]. *)
Lemma extractors_scan {A} rs : forall s g (k : string -> groups -> option A),
  (forall s' g', is_Some (k s' g')) ->
  run true (cat (List.map extractor rs)) s g k =
  k (scan rs s).2 ((scan rs s).1 ∪ g).
Proof.
  induction rs as [|r rs IH]; intros s g k Hk.
  - simpl. now rewrite (left_id_L ∅ (∪)).
  - assert (Hcat : run true (cat (List.map extractor (r :: rs))) s g k
             = run true (extractor r) s g
                 (fun s' g' => run true (cat (List.map extractor rs)) s' g' k)).
    { simpl List.map. destruct rs as [|r' rs']; [|reflexivity].
      simpl. destruct (rep_lazy _ _ _ _ _); reflexivity. }
    rewrite Hcat, extractor_find
      by (intros s' g'; apply extractors_total; exact Hk).
    simpl scan. destruct (find r s) as [[d rest]|].
    + rewrite (IH rest (d ∪ g) k Hk). destruct (scan rs rest) as [d' rest']. simpl.
      now rewrite (assoc_L (∪)).
    + apply IH, Hk.
Qed.

Lemma additional_scan {A} s g (k : string -> groups -> option A) :
  (forall s' g', is_Some (k s' g')) ->
  run true additional_part s g k =
  k (scan trailing_patterns s).2 ((scan trailing_patterns s).1 ∪ g).
Proof. apply (extractors_scan trailing_patterns). Qed.

(** [search] with the complete pattern: the leftmost primary fragment,
    then the successive searches in the text after it. *)
Lemma pattern_search_find message :
  groupdict <$> pattern_search message =
  (fun x => (scan trailing_patterns x.2).1 ∪ x.1) <$> find primary message.
Proof.
  unfold pattern_search.
  assert (H : forall t,
    groupdict <$> match_at true complete_pattern t =
    (fun x => (scan trailing_patterns x.2).1 ∪ x.1)
      <$> run true primary t ∅ (fun rest g => Some (g, rest))).
  { intros t. unfold match_at. rewrite run_complete_pattern.
    rewrite (run_ext true primary t ∅ _
               (fun s' g' => Some (MatchObj (Str.consumed t (scan trailing_patterns s').2)
                                     ((scan trailing_patterns s').1 ∪ g'))))
      by (intros s' g';
          apply (additional_scan s' g'
                   (fun rest g => Some (MatchObj (Str.consumed t rest) g))); eauto).
    rewrite (run_then primary t ∅ _ ltac:(eauto)).
    destruct (run true primary t ∅ _) as [[d rest]|]; simpl; [|reflexivity].
    now rewrite (right_id_L ∅ (∪)). }
  assert (U : forall t, search true complete_pattern t =
    match match_at true complete_pattern t with
    | Some m => Some m
    | None =>
        match t with
        | String _ t' => search true complete_pattern t'
        | EmptyString => None
        end
    end) by (intros [|c t]; reflexivity).
  induction message as [|c message IH]; rewrite find_unfold, U.
  - specialize (H ""). destruct (match_at true complete_pattern "") as [m|],
      (run true primary "" ∅ _) as [x|]; cbn [fmap option_fmap option_map] in *;
      congruence.
  - specialize (H (String c message)).
    destruct (match_at true complete_pattern (String c message)) as [m|],
      (run true primary (String c message) ∅ _) as [x|];
      cbn [fmap option_fmap option_map] in *; try congruence; exact IH.
Qed.

End FindFacts.

(** ** Where the values of a result come from *)

Module ValueFacts.
Import Re Py Parser Lang Shape StrFacts ReFacts SearchFacts NormFacts ParseFacts TrailingFacts.

(** Where the value under a key comes from, step by step. *)
Lemma set_type_values tx_types (r r' : dict) key v :
  set_type tx_types r = Return r' -> r' !! key = Some v ->
  r !! key = Some v
  \/ (key = "aina_ya_muamala" /\ exists t, In t tx_types /\ v = VStr t)
  \/ (key = "kiasi" /\ exists t v0 a, In t tx_types
        /\ (<["aina_ya_muamala" := VStr t]> r) !! (Str.lower t ++ "_amount") = Some v0
        /\ clean_amount v0 = Return a /\ v = VFloat a).
Proof.
  induction tx_types as [|t ts IH]; simpl; intros H Hk.
  - injection H as <-. now left.
  - destruct (truthy (r !! t)).
    + destruct (_ !! (Str.lower t ++ "_amount")) as [v0|] eqn:E0.
      * destruct (clean_amount v0) as [a|e] eqn:Ea; simpl in H; [|discriminate].
        injection H as <-.
        apply lookup_delete_Some in Hk as [_ Hk].
        destruct (decide (key = "kiasi")) as [->|Hne].
        -- rewrite lookup_insert_eq in Hk. injection Hk as <-.
           right. right. split; [reflexivity|]. exists t, v0, a. auto.
        -- rewrite lookup_insert_ne in Hk by congruence.
           destruct (decide (key = "aina_ya_muamala")) as [->|Hne'].
           ++ rewrite lookup_insert_eq in Hk. injection Hk as <-.
              right. left. split; [reflexivity|]. exists t. auto.
           ++ rewrite lookup_insert_ne in Hk by congruence. now left.
      * injection H as <-.
        destruct (decide (key = "aina_ya_muamala")) as [->|Hne'].
        -- rewrite lookup_insert_eq in Hk. injection Hk as <-.
           right. left. split; [reflexivity|]. exists t. auto.
        -- rewrite lookup_insert_ne in Hk by congruence. now left.
    + destruct (IH H Hk) as [?|[(? & t' & ? & ?)|(? & t' & v0 & a & ? & ?)]]; auto.
      * right. left. split; [assumption|]. exists t'. auto.
      * right. right. split; [assumption|]. exists t', v0, a. auto.
Qed.

Lemma clean_numeric_values fields : forall (r r' : dict) key v,
  (forall e s e' s', In (e, s) fields -> In (e', s') fields -> e' <> s) ->
  clean_numeric fields r = Return r' -> r' !! key = Some v ->
  r !! key = Some v
  \/ exists e v0 a, In (e, key) fields /\ r !! e = Some v0
       /\ clean_amount v0 = Return a /\ v = VFloat a.
Proof.
  induction fields as [|[e s] fs IH]; simpl; intros r r' key v Hno H Hk.
  - injection H as <-. now left.
  - assert (Hno' : forall e s e' s', In (e, s) fs -> In (e', s') fs -> e' <> s)
      by (intros; eapply Hno; right; eassumption).
    destruct (r !! e) as [v0|] eqn:E0.
    + destruct (clean_amount v0) as [a|x] eqn:Ea; simpl in H; [|discriminate].
      destruct (IH _ _ _ _ Hno' H Hk) as [Hk'|(e' & v1 & a' & Hin & He' & Ha' & ->)].
      * apply lookup_delete_Some in Hk' as [_ Hk'].
        destruct (decide (key = s)) as [->|Hne].
        -- rewrite lookup_insert_eq in Hk'. injection Hk' as <-.
           right. exists e, v0, a. auto.
        -- rewrite lookup_insert_ne in Hk' by congruence. now left.
      * right. exists e', v1, a'. repeat split; auto.
        apply lookup_delete_Some in He' as [_ He'].
        rewrite lookup_insert_ne in He'; [exact He'|].
        intros E. eapply (Hno e s e' key); [now left | now right | now symmetry].
    + destruct (IH _ _ _ _ Hno' H Hk) as [Hk'|(e' & v1 & a' & Hin & He' & Ha' & ->)].
      * now left.
      * right. exists e', v1, a'. auto.
Qed.

Lemma combine_date_time_values (r : dict) key v :
  combine_date_time r !! key = Some v ->
  r !! key = Some v \/ (key = "tarehe_na_saa" /\ exists dt, v = VDatetime dt).
Proof.
  unfold combine_date_time.
  destruct (r !! "date") as [[ds| |]|]; try (intros H; now left);
    destruct (r !! "time") as [[ts| |]|]; try (intros H; now left).
  destruct (strptime _) as [dt|]; try (intros H; now left).
  intros H. apply lookup_delete_Some in H as [_ H].
  apply lookup_delete_Some in H as [_ H].
  destruct (decide (key = "tarehe_na_saa")) as [->|Hne].
  - rewrite lookup_insert_eq in H. injection H as <-. right. eauto.
  - rewrite lookup_insert_ne in H by congruence. now left.
Qed.

Lemma numeric_fields_apart e s e' s' :
  In (e, s) numeric_fields -> In (e', s') numeric_fields -> e' <> s.
Proof.
  simpl. intros [E|[E|[E|[]]]] [E'|[E'|[E'|[]]]];
    injection E as <- <-; injection E' as <- <-; discriminate.
Qed.


Lemma raw_result_lookup g key u :
  key <> "hali" -> g !! key = Some u -> raw_result g !! key = Some (VStr (Str.strip u)).
Proof.
  intros Hne Hu. unfold raw_result. rewrite lookup_insert_ne by congruence.
  now rewrite !lookup_fmap, Hu.
Qed.

Lemma raw_result_none g key :
  key <> "hali" -> g !! key = None -> raw_result g !! key = None.
Proof.
  intros Hne Hu. unfold raw_result. rewrite lookup_insert_ne by congruence.
  now rewrite !lookup_fmap, Hu.
Qed.

(** Where a value of the final result comes from. *)
Lemma normalize_values g d key v :
  normalize g = Return d -> d !! key = Some v ->
  raw_result g !! key = Some v
  \/ (key = "aina_ya_muamala" /\ exists t, In t (List.map fst transaction_patterns) /\ v = VStr t)
  \/ (key = "kiasi" /\ exists t v0 a, In t (List.map fst transaction_patterns)
        /\ (<["aina_ya_muamala" := VStr t]> (raw_result g)) !! (Str.lower t ++ "_amount")
           = Some v0
        /\ clean_amount v0 = Return a /\ v = VFloat a)
  \/ (exists e v0 a, In (e, key) numeric_fields /\ raw_result g !! e = Some v0
        /\ clean_amount v0 = Return a /\ v = VFloat a)
  \/ (key = "tarehe_na_saa" /\ exists dt, v = VDatetime dt).
Proof.
  unfold normalize. intros H Hk.
  apply bind_Return in H as (r1 & E1 & H). apply bind_Return in H as (r2 & E2 & H).
  injection H as <-.
  apply combine_date_time_values in Hk as [Hk|Hk]; [|auto 10].
  destruct (clean_numeric_values _ _ _ _ _ numeric_fields_apart E2 Hk)
    as [Hk1|(e & v0 & a & Hin & He & Ha & ->)].
  - destruct (set_type_values _ _ _ _ _ E1 Hk1) as [?|[?|?]]; auto.
  - right. right. right. left. exists e, v0, a. repeat split; auto.
    destruct (set_type_values _ _ _ _ _ E1 He) as [?|[[-> _]|[-> _]]]; auto;
      simpl in Hin; destruct Hin as [E|[E|[E|[]]]]; discriminate E.
Qed.

(** The trailing fields of the final result: the normalized amount of
    the group, where the match has one. *)
Lemma normalize_numeric g d eng_key swa_key :
  normalize g = Return d -> In (eng_key, swa_key) numeric_fields ->
  g !! swa_key = None ->
  match g !! eng_key with
  | Some a =>
      exists x, clean_amount (VStr (Str.strip a)) = Return x
        /\ d !! swa_key = Some (VFloat x)
  | None => d !! swa_key = None
  end.
Proof.
  intros Hn Hin Hswa.
  assert (Hkeys : eng_key <> "hali" /\ swa_key <> "hali"
            /\ swa_key <> "aina_ya_muamala" /\ swa_key <> "kiasi"
            /\ swa_key <> "tarehe_na_saa"
            /\ forall e, In (e, swa_key) numeric_fields -> e = eng_key).
  { simpl in Hin. destruct Hin as [E|[E|[E|[]]]]; injection E as <- <-;
      repeat split; try discriminate;
      intros e [E|[E|[E|[]]]]; injection E as <-; reflexivity || discriminate. }
  destruct Hkeys as (K1 & K2 & K3 & K4 & K5 & K6).
  assert (Hfrom : forall v, d !! swa_key = Some v ->
    exists v0 x, raw_result g !! eng_key = Some v0 /\ clean_amount v0 = Return x
      /\ v = VFloat x).
  { intros v Hv.
    destruct (normalize_values _ _ _ _ Hn Hv)
      as [Hr|[[E _]|[[E _]|[(e & v0 & a & Hin' & He & Ha & ->)|[E _]]]]];
      try contradiction.
    - rewrite raw_result_none in Hr by assumption. discriminate.
    - rewrite (K6 _ Hin') in He. eauto. }
  destruct (g !! eng_key) as [a|] eqn:Ea.
  - assert (Hraw : raw_result g !! eng_key = Some (VStr (Str.strip a)))
      by now apply raw_result_lookup.
    assert (exists x, d !! swa_key = Some (VFloat x)) as [x Hx].
    { unfold normalize in Hn.
      apply bind_Return in Hn as (r1 & E1 & Hn). apply bind_Return in Hn as (r2 & E2 & Hn).
      injection Hn as <-.
      destruct (clean_numeric_extracts numeric_fields r1 r2
                  ltac:(apply (bool_decide_unpack _); vm_compute; exact I)
                  E2 eng_key swa_key Hin) as [x Hx].
      - rewrite (set_type_frame _ _ _ _ E1), Hraw; [eauto| | |];
          simpl in Hin; destruct Hin as [E|[E|[E|[]]]]; injection E as <- <-;
          try discriminate; repeat constructor; vm_compute; discriminate.
      - exists x. rewrite combine_date_time_frame; [exact Hx| | |];
          simpl in Hin; destruct Hin as [E|[E|[E|[]]]]; injection E as <- <-;
          discriminate. }
    destruct (Hfrom _ Hx) as (v0 & x' & Hv0 & Hc & E). injection E as ->.
    rewrite Hraw in Hv0. injection Hv0 as <-. eauto.
  - destruct (d !! swa_key) as [v|] eqn:Ev; [|reflexivity].
    destruct (Hfrom _ eq_refl) as (v0 & x & Hv0 & _).
    rewrite raw_result_none in Hv0 by assumption. discriminate.
Qed.

End ValueFacts.

(** ** What a successful parse is made of *)

Module AnatomyFacts.
Import Re Py Parser Lang Shape StrFacts ReFacts SearchFacts NormFacts CharFacts
  OrderFacts ScanFacts ParseFacts FindFacts ValueFacts.

(** [search] returns the attempt at the leftmost place that matches. *)
Lemma search_leftmost ic r s m :
  search ic r s = Some m ->
  exists pre t, s = pre ++ t /\ match_at ic r t = Some m
    /\ forall pre' t', s = pre' ++ t' ->
         (String.length pre' < String.length pre)%nat -> match_at ic r t' = None.
Proof.
  induction s as [|c s IH]; simpl.
  - destruct (match_at ic r "") eqn:E; [|discriminate].
    intros H. injection H as ->. exists "", "". repeat split; auto.
    intros pre' t' _ Hlt. simpl in Hlt. lia.
  - destruct (match_at ic r (String c s)) eqn:E.
    + intros H. injection H as ->. exists "", (String c s). repeat split; auto.
      intros pre' t' _ Hlt. simpl in Hlt. lia.
    + intros H. destruct (IH H) as (pre & t & -> & Ht & L).
      exists (String c pre), t. repeat split; auto.
      intros [|c' pre'] t' Hs Hlt.
      * simpl in Hs. now subst t'.
      * simpl in Hs. injection Hs as <- Hs. apply (L pre' t' Hs). simpl in Hlt. lia.
Qed.

(** The trailing extractors accept the empty text: what can be read as a
    primary fragment can be read as the complete pattern. *)
Lemma primary_starts t : starts true primary t -> starts true complete_pattern t.
Proof.
  intros (w & rest & -> & (w1 & w2 & -> & M1 & M2)).
  exists (w1 ++ w2), rest. split; [reflexivity|].
  change complete_pattern
    with (Cat (Opt base_pattern) (Cat (Grp None transaction_part) additional_part)).
  exists w1, (w2 ++ ""). split; [now rewrite append_nil_r|]. split; [exact M1|].
  exists w2, "". split; [reflexivity|]. split; [exact M2|].
  rewrite additional_part_unfold.
  exists "", "". split; [reflexivity|]. split; [now left|].
  exists "", "". split; [reflexivity|]. split; now left.
Qed.

(** What a match of the complete pattern is made of: at the leftmost
    place where a primary fragment can be read, after the preamble or
    without it, the earliest registered category grammar that can be
    read there; its text under the tag, its groups set, and no group of
    another grammar. *)
Lemma pattern_search_anatomy message m :
  pattern_search message = Some m ->
  exists pre preamble t i tag pattern w,
    message = pre ++ preamble ++ t
    /\ ((preamble = ""
         /\ ~ starts true (Cat base_pattern (Grp None transaction_part)) t)
        \/ matches true base_pattern preamble)
    /\ transaction_patterns !! i = Some (tag, pattern)
    /\ (exists rest, t = w ++ rest) /\ matches true pattern w
    /\ (forall j tag' pattern', (j < i)%nat ->
          transaction_patterns !! j = Some (tag', pattern') -> ~ starts true pattern' t)
    /\ (forall pre' t', message = pre' ++ t' ->
          (String.length pre' < String.length pre)%nat -> ~ starts true primary t')
    /\ groupdict m !! tag = Some w
    /\ always_sets pattern ⊆ dom (groupdict m)
    /\ forall key, key ∉ names (Opt base_pattern) -> key ∉ names (named tag pattern) ->
         key ∉ names additional_part -> groupdict m !! key = None.
Proof.
  intros Hm.
  destruct (search_leftmost _ _ _ _ Hm) as (pre & t0 & -> & Ht0 & Hleft).
  unfold match_at in Ht0.
  change complete_pattern
    with (Cat (Opt base_pattern) (Cat (Grp None transaction_part) additional_part)) in Ht0.
  rewrite run_cat in Ht0.
  set (K := fun (s' : string) (g' : groups) =>
    run true additional_part s' g'
      (fun rest g => Some (MatchObj (Str.consumed t0 rest) g))) in *.
  assert (HK : forall s g, is_Some (K s g)).
  { intros s g. apply additional_total. eauto. }
  assert (exists w1 s1 g1, t0 = w1 ++ s1
    /\ ((w1 = "" /\ ~ starts true (Cat base_pattern (Grp None transaction_part)) s1)
        \/ matches true base_pattern w1)
    /\ grows (Opt base_pattern) ∅ g1
    /\ run true transaction_part s1 g1 K = Some m) as (w1 & s1 & g1 & Hs & M1 & G1 & H1).
  { set (K1 := fun (s' : string) (g' : groups) => run true transaction_part s' g' K).
    assert (Ht1 : match run true base_pattern t0 ∅ K1 with
                  | Some x => Some x
                  | None => K1 t0 ∅
                  end = Some m) by exact Ht0.
    destruct (run true base_pattern t0 ∅ K1) as [y|] eqn:E.
    - injection Ht1 as ->.
      destruct (run_sound _ _ _ _ _ _ E) as (w1 & s1 & g1 & -> & M1 & G1 & H1).
      exists w1, s1, g1. split; [reflexivity|]. split; [now right|].
      split; [now apply grows_opt|exact H1].
    - exists "", t0, ∅. split; [reflexivity|]. split; [|split; [|exact Ht1]].
      + left. split; [reflexivity|]. intros (w & rest & Hs & M).
        destruct (run_complete true (Cat base_pattern (Grp None transaction_part))
                    w rest ∅ K M (HK rest)) as [y Hy].
        rewrite <- Hs in Hy.
        assert (Hy' : run true base_pattern t0 ∅ K1 = Some y) by exact Hy.
        congruence.
      + now apply grows_refl. }
  subst t0.
  destruct (alt_picks transaction_patterns s1 g1 K m ltac:(discriminate) H1)
    as (i & t & p & Hi & Hrun & Hbefore).
  rewrite run_named in Hrun.
  destruct (run_sound _ _ _ _ _ _ Hrun) as (w & s2 & g2 & -> & M & G2 & H2).
  unfold K in H2.
  destruct (run_sound _ _ _ _ _ _ H2) as (w3 & s3 & g3 & -> & _ & G3 & H3).
  injection H3 as <-. cbn [groupdict].
  rewrite consumed_app in G3.
  destruct (tag_not_fragment _ _ _ Hi) as (Nb & Na & Np).
  exists pre, w1, (w ++ w3 ++ s3), i, t, p, w.
  split; [reflexivity|]. split; [exact M1|]. split; [exact Hi|].
  split; [eauto|]. split; [exact M|].
  split; [|split; [|split; [|split]]].
  - intros j t' p' Hj Hl (w' & rest' & Hs & M').
    specialize (Hbefore j t' p' Hj Hl). rewrite Hs in Hbefore.
    destruct (run_complete true (named t' p') w' rest' g1 K M' (HK rest')) as [y Hy].
    congruence.
  - intros pre' t' Hs Hlt Hp.
    specialize (Hleft pre' t' Hs Hlt).
    destruct (match_at_complete _ _ _ (primary_starts _ Hp)) as [y Hy]. congruence.
  - destruct G3 as (_ & _ & F3). rewrite F3 by exact Na. apply lookup_insert_eq.
  - destruct G2 as (_ & A2 & _), G3 as (D3 & _ & _).
    etransitivity; [exact A2|]. etransitivity; [|exact D3].
    rewrite dom_insert. apply union_subseteq_r.
  - intros key Kb Kp Ka.
    destruct G3 as (_ & _ & F3), G2 as (_ & _ & F2), G1 as (_ & _ & F1).
    rewrite F3 by exact Ka.
    assert (key <> t /\ key ∉ names p) as [Kt Kp'].
    { unfold named in Kp. simpl in Kp. apply not_elem_of_union in Kp as [K1 K2].
      apply not_elem_of_singleton in K1. auto. }
    rewrite lookup_insert_ne by congruence.
    rewrite F2 by exact Kp'. rewrite F1 by exact Kb. apply lookup_empty.
Qed.

(** The loop that sets the category, at the first category that took
    part in the match. *)
Lemma set_type_at before t after (r : dict) :
  Forall (fun t' => truthy (r !! t') = false) before ->
  truthy (r !! t) = true ->
  set_type (before ++ t :: after) r =
    (let result := <["aina_ya_muamala" := VStr t]> r in
     match result !! (Str.lower t ++ "_amount") with
     | Some v =>
         bind (clean_amount v) (fun a =>
           Return (delete (Str.lower t ++ "_amount") (<["kiasi" := VFloat a]> result)))
     | None => Return result
     end).
Proof.
  intros Hb Ht. induction Hb as [|t' ts Ht' _ IH]; simpl.
  - now rewrite Ht.
  - now rewrite Ht'.
Qed.

(** The groups of two category grammars, of the preamble and of the
    trailing extractors are apart. *)
Lemma groups_apart i j t p t' p' key :
  transaction_patterns !! i = Some (t, p) ->
  transaction_patterns !! j = Some (t', p') ->
  key ∈ names (named t p) ->
  (key ∉ names (Opt base_pattern)) /\ (key ∉ names additional_part)
  /\ (i <> j -> key ∉ names (named t' p')).
Proof.
  intros Hi Hj Hk.
  assert (Forall (fun x =>
    names (named x.1 x.2) ## names (Opt base_pattern)
    /\ names (named x.1 x.2) ## names additional_part
    /\ Forall (fun y => x.1 = y.1 \/ names (named x.1 x.2) ## names (named y.1 y.2))
         transaction_patterns) transaction_patterns) as H.
  { apply (bool_decide_unpack _). vm_compute. exact I. }
  eapply Forall_lookup_1 in H; [|exact Hi]. simpl in H.
  destruct H as (H1 & H2 & H3).
  eapply Forall_lookup_1 in H3; [|exact Hj]. simpl in H3.
  repeat split.
  - intros Hx. exact (proj1 (elem_of_disjoint _ _) H1 key Hk Hx).
  - intros Hx. exact (proj1 (elem_of_disjoint _ _) H2 key Hk Hx).
  - intros Hne. destruct H3 as [->|H3].
    + exfalso. apply Hne. eapply tags_distinct; eauto.
    + intros Hx. exact (proj1 (elem_of_disjoint _ _) H3 key Hk Hx).
Qed.

Lemma tag_in_names t p : t ∈ names (named t p).
Proof. unfold named. simpl. apply elem_of_union_l, elem_of_singleton. reflexivity. Qed.

Lemma tag_not_status i t p : transaction_patterns !! i = Some (t, p) -> t <> "hali".
Proof.
  intros Hi E. rewrite E in Hi.
  assert (Forall (fun '(t, _) => t <> "hali") transaction_patterns) as Hall
    by (repeat constructor; discriminate).
  eapply Forall_lookup_1 in Hall; [|exact Hi]. now apply Hall.
Qed.


Lemma success_is_match message d :
  parse_message (Text message) = Return d -> d !! "hali" = Some (VStr "IMEFAULU") ->
  exists m, pattern_search message = Some m /\ normalize (groupdict m) = Return d.
Proof.
  rewrite parse_message_unfold.
  destruct (failed_search message) as [fm|].
  { intros H. injection H as <-. rewrite lookup_insert_eq. discriminate. }
  destruct (pattern_search message) as [m|].
  - intros H _. eauto.
  - intros H. injection H as <-. discriminate.
Qed.

(** The category of the result is the grammar the match went through. *)
Lemma normalize_category i tag pattern g w d :
  transaction_patterns !! i = Some (tag, pattern) ->
  g !! tag = Some w -> matches true pattern w ->
  (forall key, key ∉ names (Opt base_pattern) -> key ∉ names (named tag pattern) ->
     key ∉ names additional_part -> g !! key = None) ->
  normalize g = Return d ->
  exists r1 r2,
    (let result := <["aina_ya_muamala" := VStr tag]> (raw_result g) in
     match result !! (Str.lower tag ++ "_amount") with
     | Some v =>
         bind (clean_amount v) (fun a =>
           Return (delete (Str.lower tag ++ "_amount") (<["kiasi" := VFloat a]> result)))
     | None => Return result
     end) = Return r1
    /\ clean_numeric numeric_fields r1 = Return r2
    /\ d = combine_date_time r2
    /\ d !! "aina_ya_muamala" = Some (VStr tag).
Proof.
  intros Hi Ht M Ho Hn. unfold normalize in Hn.
  apply bind_Return in Hn as (r1 & E1 & Hn). apply bind_Return in Hn as (r2 & E2 & Hn).
  injection Hn as <-.
  pose proof E1 as E1'.
  rewrite <- (take_drop_middle _ _ _ Hi), List.map_app in E1. simpl in E1.
  assert (Hbefore : Forall (fun t' => truthy (raw_result g !! t') = false)
            (List.map fst (take i transaction_patterns))).
  { apply Forall_forall. intros t' Ht'.
    apply list_elem_of_In, in_map_iff in Ht' as ([t'' p''] & <- & Hin'').
    apply list_elem_of_In, list_elem_of_lookup in Hin'' as (j & Hj).
    apply lookup_take_Some in Hj as [Hj Hlt]. simpl.
    destruct (groups_apart j i t'' p'' tag pattern t'' Hj Hi (tag_in_names _ _))
      as (N1 & N2 & N3).
    rewrite raw_result_none; [reflexivity|exact (tag_not_status _ _ _ Hj)|].
    apply Ho; auto. apply N3. lia. }
  assert (Htruthy : truthy (raw_result g !! tag) = true).
  { rewrite (raw_result_lookup _ _ _ (tag_not_status _ _ _ Hi) Ht). simpl.
    apply negb_true_iff, String.eqb_neq. exact (grammar_text_not_blank i tag pattern w Hi M). }
  rewrite (set_type_at _ _ _ _ Hbefore Htruthy) in E1.
  exists r1, r2. repeat split; auto.
  rewrite combine_date_time_frame by discriminate.
  rewrite (clean_numeric_frame _ _ _ _ E2) by (repeat constructor; discriminate).
  rewrite <- (take_drop_middle _ _ _ Hi), List.map_app in E1'. simpl in E1'.
  eapply set_type_picks; [exact Hbefore|exact Htruthy| |exact E1'].
  exact (amount_key_not_category i tag pattern Hi).
Qed.

End AnatomyFacts.

(** * The claims *)

Import Re Py Parser Lang Shape Scenario CleanFacts.
Import StrFacts ReFacts SearchFacts FailureFacts NormFacts CharFacts CaseFacts LowerFacts
  CaseNorm ParseFacts OrderFacts FindFacts ValueFacts AnatomyFacts.

(** What [parse_message] returns on the scenario messages. *)
Lemma balance_scenario_result :
  parse_message (Text balance_scenario) =
    Return {[ "transaction_id" := VStr "TAD72CZ6J3";
              "SALIO" :=
                VStr "Baki yako ni: Akaunti ya M-PESA : Ksh263.47 Tarehe 13/1/25 saa 5:36 PM";
              "salio_date" := VStr "13/1/25";
              "salio_time" := VStr "5:36 PM";
              "hali" := VStr "IMEFAULU";
              "aina_ya_muamala" := VStr "SALIO";
              "kiasi" := VFloat (Finite false (26347 # 100)) ]}.
Proof. by_evaluation. Qed.

Lemma send_scenario_result :
  parse_message (Text send_scenario) =
    Return {[ "transaction_id" := VStr "TAE16URS8R";
              "POCHI_LA_BIASHARA" :=
                VStr "Ksh10.00 imetumwa kwa MERCILINE OSEWE tarehe 14/1/25 saa 6:34 PM";
              "pochi_amount" := VStr "10.00";
              "pochi_recipient" := VStr "MERCILINE OSEWE";
              "pochi_date" := VStr "14/1/25";
              "pochi_time" := VStr "6:34 PM";
              "hali" := VStr "IMEFAULU";
              "aina_ya_muamala" := VStr "POCHI_LA_BIASHARA";
              "salio_la_mpesa" := VFloat (Finite false (11347 # 100));
              "gharama" := VFloat (Finite false 0);
              "kikomo_cha_siku" := VFloat (Finite false (499870 # 1)) ]}.
Proof. by_evaluation. Qed.

Lemma balance_with_cost_result :
  parse_message (Text balance_with_cost) =
    Return {[ "transaction_id" := VStr "TAD72CZ6J3";
              "SALIO" :=
                VStr "Baki yako ni: Akaunti ya M-PESA : Ksh263.47 Tarehe 13/1/25 saa 5:36 PM";
              "salio_date" := VStr "13/1/25";
              "salio_time" := VStr "5:36 PM";
              "hali" := VStr "IMEFAULU";
              "aina_ya_muamala" := VStr "SALIO";
              "kiasi" := VFloat (Finite false (26347 # 100));
              "gharama" := VFloat (Finite false 0) ]}.
Proof. by_evaluation. Qed.

Lemma receipt_then_purchase_result :
  parse_message (Text receipt_then_purchase) =
    Return {[ "KUPOKEA" :=
                VStr "Umepokea Ksh1.00 kutoka John Doe 0729641937 mnamo 13/1/25 saa 5:39 PM";
              "kupokea_sender" := VStr "John Doe";
              "kupokea_phone" := VStr "0729641937";
              "kupokea_date" := VStr "13/1/25";
              "kupokea_time" := VStr "5:39 PM";
              "hali" := VStr "IMEFAULU";
              "aina_ya_muamala" := VStr "KUPOKEA";
              "kiasi" := VFloat (Finite false (1 # 1)) ]}.
Proof. by_evaluation. Qed.

(** C1 (the code departs from the claim). On the balance-inquiry
    scenario the parser returns SUCCESS with the amount 263.47, but the
    date and the time stay as the raw fragments [salio_date] and
    [salio_time] and there is no combined timestamp [tarehe_na_saa]:
    the combining step looks for keys [date] and [time], which no
    group of the pattern is named. The fragments themselves do parse,
    to 2025-01-13 17:36. No message at all gets a combined timestamp. *)
Theorem balance_scenario_keeps_raw_date_and_time :
  (exists d,
    parse_message (Text balance_scenario) = Return d
    /\ d !! "hali" = Some (VStr "IMEFAULU")
    /\ d !! "aina_ya_muamala" = Some (VStr "SALIO")
    /\ d !! "kiasi" = Some (VFloat (Finite false (26347 # 100)))
    /\ d !! "salio_date" = Some (VStr "13/1/25")
    /\ d !! "salio_time" = Some (VStr "5:36 PM")
    /\ d !! "tarehe_na_saa" = None
    /\ strptime ("13/1/25" ++ " " ++ "5:36 PM") = Return (Datetime 2025 1 13 17 36))
  /\ (forall message d,
       parse_message (Text message) = Return d -> d !! "tarehe_na_saa" = None).
Proof.
  split; [|exact timestamp_is_never_combined].
  eexists. split; [apply balance_scenario_result|]. repeat split; by_evaluation.
Qed.

(** C2, the claim as stated fails: on the transfer scenario the
    category is the business-till tag POCHI_LA_BIASHARA, not the
    send-money tag KUTUMA, whose grammar asks for a ten-digit phone
    number after the name. *)
Lemma send_scenario_is_tagged_pochi :
  exists d,
    parse_message (Text send_scenario) = Return d
    /\ d !! "aina_ya_muamala" = Some (VStr "POCHI_LA_BIASHARA")
    /\ d !! "aina_ya_muamala" <> Some (VStr "KUTUMA")
    /\ starts_b (grammar "KUTUMA")
         "Ksh10.00 imetumwa kwa MERCILINE OSEWE tarehe 14/1/25 saa 6:34 PM" = false.
Proof.
  eexists. split; [apply send_scenario_result|].
  split; [by_evaluation|]. split; [|by_evaluation].
  intros H. vm_compute in H. discriminate.
Qed.

(** C2, amended. On the transfer scenario [parse_message] returns a
    SUCCESS result whose category is POCHI_LA_BIASHARA, whose
    counterparty is "MERCILINE OSEWE" and whose daily limit is
    499870.00. *)
Theorem send_scenario_fields :
  exists d,
    parse_message (Text send_scenario) = Return d
    /\ d !! "hali" = Some (VStr "IMEFAULU")
    /\ d !! "aina_ya_muamala" = Some (VStr "POCHI_LA_BIASHARA")
    /\ d !! "pochi_recipient" = Some (VStr "MERCILINE OSEWE")
    /\ d !! "kikomo_cha_siku" = Some (VFloat (Finite false (499870 # 1))).
Proof.
  eexists. split; [apply send_scenario_result|]. repeat split; by_evaluation.
Qed.

(** C3 (the code departs from the claim). An amount fragment that is
    no decimal literal once the separators are stripped makes [float]
    raise [ValueError] inside [clean_amount], and nothing in
    [parse_message] catches it: the call raises instead of returning
    an error result. *)
Theorem malformed_amount_escapes_as_exception :
  clean_amount (VStr "1.2.3") = Raise ValueError
  /\ clean_amount (VStr "..") = Raise ValueError
  /\ parse_message (Text "Umenunua Ksh1.2.3 ya mjazo siku 15/1/25 saa 8:44 PM")
     = Raise ValueError
  /\ parse_message (Text "Umenunua Ksh.. ya mjazo siku 15/1/25 saa 8:44 PM")
     = Raise ValueError.
Proof. repeat split; by_evaluation. Qed.

(** C4. A message that contains one of the fixed failure phrases,
    wherever and whatever stands around it, is answered with exactly
    the three keys of a FAILURE result: the status IMESHINDIKANA, the
    matched phrase (a part of the message that reads as a failure
    phrase) and the message itself. No transaction field is extracted. *)
Theorem failure_phrase_short_circuits (message phrase : string) :
  In phrase failure_phrases -> Str.contains phrase message ->
  exists matched,
    parse_message (Text message) =
      Return {[ "hali" := VStr "IMESHINDIKANA";
                "sababu" := VStr matched;
                "ujumbe_asili" := VStr message ]}
    /\ Str.contains matched message
    /\ In (spaces matched) failure_phrases.
Proof.
  intros Hin (pre & post & ->).
  assert (Hs : starts false failed_pattern (phrase ++ post)).
  { exists phrase, post. split; [reflexivity|]. now apply phrase_accepted. }
  destruct (search_complete false failed_pattern pre _ Hs) as [m Hm].
  destruct (search_group0 _ _ _ _ Hm) as [Hc Hacc].
  exists (group0 m). rewrite parse_message_unfold. unfold failed_search. rewrite Hm.
  repeat split; [exact Hc|]. now apply accepted_is_phrase.
Qed.

Lemma failure_phrase_short_circuits_witness :
  exists matched,
    parse_message (Text purchase_with_failure) =
      Return {[ "hali" := VStr "IMESHINDIKANA";
                "sababu" := VStr matched;
                "ujumbe_asili" := VStr purchase_with_failure ]}
    /\ Str.contains matched purchase_with_failure
    /\ In (spaces matched) failure_phrases.
Proof.
  apply (failure_phrase_short_circuits purchase_with_failure "Imefeli").
  - simpl. tauto.
  - exists "TAF5BV0XRN Imethibitishwa. Umenunua Ksh5.00 ya mjazo siku 15/1/25 saa 8:44 PM. ",
      ". Baki mpya ya M-PESA ni Ksh38.47.". reflexivity.
Defined.

(** C5, the claim as stated fails: the result for a message that
    nothing recognizes has the single key [error] and no status field. *)
Lemma unrecognized_result_has_no_status :
  parse_message (Text "Habari ya asubuhi") =
    Return {[ "error" := VStr "Muundo wa ujumbe hautambuliwi" ]}
  /\ ({[ "error" := VStr "Muundo wa ujumbe hautambuliwi" ]} : dict) !! "hali" = None.
Proof. split; by_evaluation. Qed.

(** C5, amended. Whenever [parse_message] returns on a string, the
    result carries the status field [hali] if a failure phrase
    (IMESHINDIKANA) or the complete pattern (IMEFAULU) matched; for
    a message that matches neither, the result is exactly the one
    field [error] with the explanatory message and has no status
    field. *)
Theorem status_field_or_error_field (message : string) (d : dict) :
  parse_message (Text message) = Return d ->
  match failed_search message, pattern_search message with
  | Some _, _ => d !! "hali" = Some (VStr "IMESHINDIKANA")
  | None, Some _ => d !! "hali" = Some (VStr "IMEFAULU")
  | None, None =>
      d = {[ "error" := VStr "Muundo wa ujumbe hautambuliwi" ]} /\ d !! "hali" = None
  end.
Proof.
  rewrite parse_message_unfold.
  destruct (failed_search message) as [fm|].
  - intros H. injection H as <-. reflexivity.
  - destruct (pattern_search message) as [m|].
    + apply normalize_hali.
    + intros H. injection H as <-. split; reflexivity.
Qed.

Lemma status_field_or_error_field_witness :
  ({[ "error" := VStr "Muundo wa ujumbe hautambuliwi" ]} : dict)
    = {[ "error" := VStr "Muundo wa ujumbe hautambuliwi" ]}
  /\ ({[ "error" := VStr "Muundo wa ujumbe hautambuliwi" ]} : dict) !! "hali" = None.
Proof.
  apply (status_field_or_error_field "Habari ya asubuhi"). by_evaluation.
Defined.

(** C6, the claim as stated fails: the result for the minimal
    send-money message keeps the raw text of the branch under the key
    KUTUMA and the fragments under their category-specific keys. *)
Lemma minimal_send_money_keeps_raw_fields :
  parse_message
    (Text "Ksh20.00 imetumwa kwa Eliud Otieno 0792469173 tarehe 13/1/25 saa 8:37 PM") =
    Return {[ "KUTUMA" :=
                VStr "Ksh20.00 imetumwa kwa Eliud Otieno 0792469173 tarehe 13/1/25 saa 8:37 PM";
              "kutuma_recipient" := VStr "Eliud Otieno";
              "kutuma_phone" := VStr "0792469173";
              "kutuma_date" := VStr "13/1/25";
              "kutuma_time" := VStr "8:37 PM";
              "hali" := VStr "IMEFAULU";
              "aina_ya_muamala" := VStr "KUTUMA";
              "kiasi" := VFloat (Finite false (20 # 1)) ]}.
Proof. by_evaluation. Qed.

(** C6, amended. For every category grammar of the registry, in its
    order, the minimal message of that grammar parses to a SUCCESS
    result tagged with that category and with no other category's
    key; the counterparty and the reference it states are in the result
    under the keys of the category, and its amount is in the result as
    a number under [kiasi] for the seven categories other than
    KULIPA_TILL and POCHI_LA_BIASHARA. *)
Theorem minimal_messages_are_tagged :
  List.map (fun x => x.1.1) minimal_messages = List.map fst transaction_patterns
  /\ Forall (fun x => minimal_ok x.1.1 x.1.2 x.2) minimal_messages.
Proof.
  split; [reflexivity|].
  repeat (apply Forall_cons; split; [apply (bool_decide_unpack _); vm_compute; exact I|]).
  constructor.
Qed.

(** C7, the claim as stated fails: with the cost sentence in front of
    the balance sentence, both after the primary fragment, the balance
    is extracted and the cost is not. *)
Lemma cost_in_front_of_balance_is_lost :
  parse_message (Text cost_before_balance) =
    Return {[ "MJAZO" := VStr "Umenunua Ksh5.00 ya mjazo siku 15/1/25 saa 8:44 PM";
              "mjazo_date" := VStr "15/1/25";
              "mjazo_time" := VStr "8:44 PM";
              "hali" := VStr "IMEFAULU";
              "aina_ya_muamala" := VStr "MJAZO";
              "kiasi" := VFloat (Finite false (5 # 1));
              "salio_la_mpesa" := VFloat (Finite false (3847 # 100)) ]}
  /\ cost_before_balance =
       "Umenunua Ksh5.00 ya mjazo siku 15/1/25 saa 8:44 PM" ++ ". "
       ++ "Gharama ya kununua ni Ksh0.00." ++ " Baki mpya ya M-PESA ni Ksh38.47."
  /\ starts_b (trailing 1) "Gharama ya kununua ni Ksh0.00." = true.
Proof. split; [by_evaluation | split; [reflexivity | by_evaluation]]. Qed.

(** C7, amended. For every successfully categorized message, the
    trailing-information fields are extracted by successive searches in
    the order of the registry (balance, then cost, then daily limit):
    in the text after the leftmost primary fragment of the message,
    each pattern is looked for at its leftmost place in the text that
    the match of the last field found before it has left. A field is in
    the result, under its canonical key and as the normalized amount of
    the text found, when its search finds one, and is not in the result
    otherwise. *)
Theorem trailing_fields_by_successive_search (message : string) (d : dict) :
  parse_message (Text message) = Return d ->
  d !! "hali" = Some (VStr "IMEFAULU") ->
  exists before fragment tail g,
    message = before ++ fragment ++ tail
    /\ matches true primary fragment
    /\ find primary message = Some (g, tail)
    /\ Forall (fun '(eng_key, swa_key) =>
         match (scan trailing_patterns tail).1 !! eng_key with
         | Some a =>
             exists x, clean_amount (VStr (Str.strip a)) = Return x
               /\ d !! swa_key = Some (VFloat x)
         | None => d !! swa_key = None
         end) numeric_fields.
Proof.
  intros Hparse Hhali.
  destruct (success_is_match _ _ Hparse Hhali) as (m & Hm & Hn).
  pose proof (pattern_search_find message) as Hf. rewrite Hm in Hf.
  destruct (find primary message) as [[g tail]|] eqn:Ef; [|discriminate].
  cbn [fmap option_fmap option_map] in Hf. injection Hf as Hg. simpl in Hg.
  destruct (find_sound _ _ _ _ Ef) as (before & fragment & Hs & M & G & _).
  exists before, fragment, tail, g.
  split; [exact Hs|]. split; [exact M|]. split; [reflexivity|].
  assert (Hfield : forall eng_key swa_key, In (eng_key, swa_key) numeric_fields ->
    match (scan trailing_patterns tail).1 !! eng_key with
    | Some a =>
        exists x, clean_amount (VStr (Str.strip a)) = Return x
          /\ d !! swa_key = Some (VFloat x)
    | None => d !! swa_key = None
    end).
  { intros eng_key swa_key Hin.
    assert (Hkeys : (eng_key ∉ names primary) /\ (swa_key ∉ names complete_pattern)).
    { simpl in Hin. destruct Hin as [E|[E|[E|[]]]]; injection E as <- <-;
        split; apply (bool_decide_unpack _); vm_compute; exact I. }
    destruct Hkeys as [Ke Ks].
    pose proof (normalize_numeric _ _ _ _ Hn Hin
                  (pattern_groups_only _ _ _ Hm Ks)) as H.
    assert (Hl : groupdict m !! eng_key = (scan trailing_patterns tail).1 !! eng_key).
    { rewrite Hg. apply lookup_union_l.
      destruct G as (_ & _ & F). rewrite (F _ Ke). apply lookup_empty. }
    now rewrite Hl in H. }
  apply Forall_forall. intros [eng_key swa_key] Hin.
  apply Hfield. now apply list_elem_of_In.
Qed.

Lemma trailing_fields_by_successive_search_witness :
  exists before fragment tail g,
    balance_with_cost = before ++ fragment ++ tail
    /\ matches true primary fragment
    /\ find primary balance_with_cost = Some (g, tail)
    /\ Forall (fun '(eng_key, swa_key) =>
         match (scan trailing_patterns tail).1 !! eng_key with
         | Some a =>
             exists x, clean_amount (VStr (Str.strip a)) = Return x
               /\ ({[ "transaction_id" := VStr "TAD72CZ6J3";
                      "SALIO" :=
                        VStr "Baki yako ni: Akaunti ya M-PESA : Ksh263.47 Tarehe 13/1/25 saa 5:36 PM";
                      "salio_date" := VStr "13/1/25";
                      "salio_time" := VStr "5:36 PM";
                      "hali" := VStr "IMEFAULU";
                      "aina_ya_muamala" := VStr "SALIO";
                      "kiasi" := VFloat (Finite false (26347 # 100));
                      "gharama" := VFloat (Finite false 0) ]} : dict) !! swa_key
                  = Some (VFloat x)
         | None =>
             ({[ "transaction_id" := VStr "TAD72CZ6J3";
                 "SALIO" :=
                   VStr "Baki yako ni: Akaunti ya M-PESA : Ksh263.47 Tarehe 13/1/25 saa 5:36 PM";
                 "salio_date" := VStr "13/1/25";
                 "salio_time" := VStr "5:36 PM";
                 "hali" := VStr "IMEFAULU";
                 "aina_ya_muamala" := VStr "SALIO";
                 "kiasi" := VFloat (Finite false (26347 # 100));
                 "gharama" := VFloat (Finite false 0) ]} : dict) !! swa_key = None
         end) numeric_fields.
Proof.
  apply (trailing_fields_by_successive_search balance_with_cost).
  - apply balance_with_cost_result.
  - by_evaluation.
Defined.

(** C8, the claim as stated fails: the balance-inquiry grammar SALIO
    (third in the registry) and the airtime grammar MJAZO (sixth) both
    match the message, and the message is tagged MJAZO, whose text
    stands further left. *)
Lemma later_registered_grammar_wins_on_the_left :
  transaction_patterns !! 2%nat = Some ("SALIO", grammar "SALIO")
  /\ transaction_patterns !! 5%nat = Some ("MJAZO", grammar "MJAZO")
  /\ is_Some (search true (grammar "SALIO") purchase_then_balance)
  /\ is_Some (search true (grammar "MJAZO") purchase_then_balance)
  /\ parse_message (Text purchase_then_balance) =
       Return {[ "MJAZO" := VStr "Umenunua Ksh5.00 ya mjazo siku 15/1/25 saa 8:44 PM";
                 "mjazo_date" := VStr "15/1/25";
                 "mjazo_time" := VStr "8:44 PM";
                 "hali" := VStr "IMEFAULU";
                 "aina_ya_muamala" := VStr "MJAZO";
                 "kiasi" := VFloat (Finite false (5 # 1)) ]}.
Proof.
  split; [reflexivity|]. split; [reflexivity|].
  split; [apply (bool_decide_unpack _); vm_compute; exact I|].
  split; [apply (bool_decide_unpack _); vm_compute; exact I|].
  by_evaluation.
Qed.

(** C8, amended. A successfully categorized message is classified at
    the leftmost place where a primary fragment (a category grammar,
    after the confirmation preamble or without it) can be read. The
    preamble is left out only when no preamble followed by a category
    grammar can be read there. The category is the earliest registered
    of the grammars that can be read where the preamble ends: the
    registry decides between the grammars that can be read at that
    place, and the place comes first. *)
Theorem category_is_earliest_grammar_at_leftmost_match (message : string) (d : dict) :
  parse_message (Text message) = Return d ->
  d !! "hali" = Some (VStr "IMEFAULU") ->
  exists before preamble text i tag pattern,
    message = before ++ preamble ++ text
    /\ ((preamble = ""
         /\ ~ starts true (Cat base_pattern (Grp None transaction_part)) text)
        \/ matches true base_pattern preamble)
    /\ transaction_patterns !! i = Some (tag, pattern)
    /\ starts true pattern text
    /\ (forall j tag' pattern', (j < i)%nat ->
          transaction_patterns !! j = Some (tag', pattern') ->
          ~ starts true pattern' text)
    /\ (forall before' text', message = before' ++ text' ->
          (String.length before' < String.length before)%nat ->
          ~ starts true primary text')
    /\ d !! "aina_ya_muamala" = Some (VStr tag).
Proof.
  intros Hparse Hhali.
  destruct (success_is_match _ _ Hparse Hhali) as (m & Hm & Hn).
  destruct (pattern_search_anatomy _ _ Hm)
    as (pre & w1 & t & i & tag & p & w & Hs & Hb & Hi & [rest Ht] & M & He & Hl & Hg & _ & Ho).
  destruct (normalize_category _ _ _ _ _ _ Hi Hg M Ho Hn) as (r1 & r2 & _ & _ & _ & Ha).
  exists pre, w1, t, i, tag, p.
  split; [exact Hs|]. split; [exact Hb|]. split; [exact Hi|].
  split; [now exists w, rest|]. split; [exact He|]. split; [exact Hl|exact Ha].
Qed.

Lemma category_is_earliest_grammar_at_leftmost_match_witness :
  exists before preamble text i tag pattern,
    receipt_then_purchase = before ++ preamble ++ text
    /\ ((preamble = ""
         /\ ~ starts true (Cat base_pattern (Grp None transaction_part)) text)
        \/ matches true base_pattern preamble)
    /\ transaction_patterns !! i = Some (tag, pattern)
    /\ starts true pattern text
    /\ (forall j tag' pattern', (j < i)%nat ->
          transaction_patterns !! j = Some (tag', pattern') ->
          ~ starts true pattern' text)
    /\ (forall before' text', receipt_then_purchase = before' ++ text' ->
          (String.length before' < String.length before)%nat ->
          ~ starts true primary text')
    /\ ({[ "KUPOKEA" :=
             VStr "Umepokea Ksh1.00 kutoka John Doe 0729641937 mnamo 13/1/25 saa 5:39 PM";
           "kupokea_sender" := VStr "John Doe";
           "kupokea_phone" := VStr "0729641937";
           "kupokea_date" := VStr "13/1/25";
           "kupokea_time" := VStr "5:39 PM";
           "hali" := VStr "IMEFAULU";
           "aina_ya_muamala" := VStr "KUPOKEA";
           "kiasi" := VFloat (Finite false (1 # 1)) ]} : dict) !! "aina_ya_muamala"
       = Some (VStr tag).
Proof.
  apply (category_is_earliest_grammar_at_leftmost_match receipt_then_purchase).
  - apply receipt_then_purchase_result.
  - by_evaluation.
Defined.

(** C9, the claim as stated fails: a fragment made of separators only
    is not empty, so it reaches [float] as the empty text and raises,
    while the same fragment without its separators is empty and
    normalizes to zero. *)
Lemma clean_amount_comma_only :
  clean_amount (VStr ",") = Raise ValueError
  /\ clean_amount (VStr (Str.remove "," ",")) = Return zero.
Proof. split; by_evaluation. Qed.

(** C9, amended. For every amount string that is not made of thousands
    separators only, normalizing it gives what normalizing the string
    without its separators gives: the same decimal, or the same error. *)
Theorem clean_amount_ignores_separators (amount_str : string) :
  Str.remove "," amount_str <> "" ->
  clean_amount (VStr (Str.remove "," amount_str)) = clean_amount (VStr amount_str).
Proof.
  intros H. unfold clean_amount.
  assert (amount_str <> "") as Hne by (intros ->; now apply H).
  apply String.eqb_neq in H, Hne. rewrite H, Hne, remove_idempotent. reflexivity.
Qed.

Lemma clean_amount_ignores_separators_witness :
  clean_amount (VStr (Str.remove "," "499,870.00")) = clean_amount (VStr "499,870.00").
Proof.
  apply (clean_amount_ignores_separators "499,870.00"). vm_compute. discriminate.
Defined.

(** C10. Failure phrases are looked for with their letter case: a
    result is a FAILURE only when some part of the message reads as a
    failure phrase letter for letter, so a message that holds failure
    phrases in another letter case only is not one. The complete
    pattern ignores the case: two messages without failure phrase that
    differ in the case of their letters only get the same status and
    the same category (or raise the same exception). *)
Theorem failure_detection_is_case_sensitive :
  (forall message d,
     parse_message (Text message) = Return d ->
     d !! "hali" = Some (VStr "IMESHINDIKANA") ->
     exists w, Str.contains w message /\ In (spaces w) failure_phrases)
  /\ (forall message message',
       same_letters message message' = true ->
       failed_search message = None -> failed_search message' = None ->
       same_outcome same_class (parse_message (Text message))
         (parse_message (Text message'))).
Proof.
  split.
  - intros message d H Hhali. rewrite parse_message_unfold in H.
    destruct (failed_search message) as [fm|] eqn:Hf.
    + destruct (search_group0 _ _ _ _ Hf) as [Hc Hacc].
      exists (group0 fm). split; [exact Hc|]. now apply accepted_is_phrase.
    + destruct (pattern_search message) as [m|].
      * rewrite (normalize_hali _ _ H) in Hhali. discriminate.
      * injection H as <-. discriminate.
  - intros message message' Hs Hf Hf'.
    apply same_letters_lower in Hs.
    pose proof (parse_message_lower message Hf) as H.
    pose proof (parse_message_lower message' Hf') as H'.
    rewrite <- Hs in H'.
    destruct (parse_message (Text message)) as [d|e],
      (parse_message (Text message')) as [d'|e'],
      (parse_message (Text (Str.lower message))) as [l|x];
      simpl in *; try contradiction; try congruence.
    destruct H as [H1 H2], H' as [H1' H2']. split; congruence.
Qed.

Lemma failure_detection_is_case_sensitive_witness :
  (exists w, Str.contains w "Imefeli. Hakuna PESA ZA KUTOSHA"
     /\ In (spaces w) failure_phrases)
  /\ same_outcome same_class
       (parse_message (Text "Hakuna PESA ZA KUTOSHA. Umenunua Ksh5.00 ya mjazo siku 15/1/25 saa 8:44 PM"))
       (parse_message (Text "hakuna pesa za kutosha. UMENUNUA KSH5.00 YA MJAZO SIKU 15/1/25 SAA 8:44 pm")).
Proof.
  split.
  - apply (proj1 failure_detection_is_case_sensitive "Imefeli. Hakuna PESA ZA KUTOSHA"
             {[ "hali" := VStr "IMESHINDIKANA"; "sababu" := VStr "Imefeli";
                "ujumbe_asili" := VStr "Imefeli. Hakuna PESA ZA KUTOSHA" ]});
      by_evaluation.
  - apply (proj2 failure_detection_is_case_sensitive); by_evaluation.
Defined.

(** * Further facts: what the fields of a result hold *)

(** ** Trimming and cleaning *)

Module TrimFacts.
Import Re Py Parser Lang Shape Fields StrFacts CharFacts ScanFacts.










Lemma all_remove p x s : all p s = true -> all p (Str.remove x s) = true.
Proof.
  induction s as [|c s IH]; simpl; [reflexivity|].
  intros H. apply andb_true_iff in H as [Hc Hs].
  destruct (Ascii.eqb c x); simpl; [auto|]. now rewrite Hc, IH.
Qed.

Lemma remove_removes x s :
  all (fun c => negb (Ascii.eqb c x)) (Str.remove x s) = true.
Proof.
  induction s as [|c s IH]; simpl; [reflexivity|].
  destruct (Ascii.eqb c x) eqn:E; simpl; [exact IH|]. now rewrite E, IH.
Qed.


Lemma rstrip_char_app x s : Str.rstrip_char x (s ++ String x "") = Str.rstrip_char x s.
Proof.
  induction s as [|c s IH]; simpl.
  - now rewrite Ascii.eqb_refl.
  - now rewrite IH.
Qed.

Lemma rstrip_char_ends x s :
  ends_with (fun c => negb (Ascii.eqb c x)) s = true -> Str.rstrip_char x s = s.
Proof.
  induction s as [|c s IH]; [discriminate|].
  destruct s as [|a s'].
  - simpl. intros H. apply negb_true_iff in H. now rewrite H.
  - intros H. change (ends_with (fun c => negb (Ascii.eqb c x)) (String a s') = true) in H.
    change (Str.rstrip_char x (String c (String a s'))) with
      (match Str.rstrip_char x (String a s') with
       | "" => if Ascii.eqb c x then "" else String c ""
       | u => String c u
       end).
    now rewrite (IH H).
Qed.

End TrimFacts.

Module AmountFacts.
Import Re Py Parser Lang Shape Fields StrFacts CharFacts ScanFacts TrimFacts.



Lemma digit_is_point c : Char.is_digit c = true -> digit_or_point c = true.
Proof. unfold digit_or_point. now intros ->. Qed.



(** *** [float] on digits and periods *)


Lemma span_digits_app d r :
  all Char.is_digit d = true ->
  match r with String c _ => Char.is_digit c = false | EmptyString => True end ->
  span_digits (d ++ r) = (d, r).
Proof.
  intros Hd Hr. induction d as [|c d IH]; simpl.
  - destruct r as [|c r]; [reflexivity|]. simpl. now rewrite Hr.
  - simpl in Hd. apply andb_true_iff in Hd as [Hc Hd]. now rewrite Hc, IH.
Qed.













End AmountFacts.

(** ** What the groups capture *)

Module CaptureFacts.
Import Re Py Parser Lang Shape Fields StrFacts ReFacts SearchFacts.






End CaptureFacts.

Module FieldFacts.
Import Re Py Parser Lang Shape Fields StrFacts ReFacts SearchFacts NormFacts ParseFacts
  TrimFacts AmountFacts CaptureFacts ValueFacts AnatomyFacts.
















End FieldFacts.

(** ** Results, pieces of the message and raises *)

Module ResultFacts.
Import Re Py Parser Lang Shape Fields StrFacts ReFacts SearchFacts NormFacts ParseFacts
  OrderFacts TrailingFacts TrimFacts AmountFacts CaptureFacts ValueFacts AnatomyFacts
  FieldFacts.





End ResultFacts.

Module PieceFacts.
Import Re Py Parser Lang Shape Fields StrFacts ReFacts SearchFacts NormFacts
  TrimFacts CaptureFacts.

Lemma contains_trans a b c : Str.contains a b -> Str.contains b c -> Str.contains a c.
Proof.
  intros (p & q & ->) (p' & q' & ->). exists (p' ++ p), (q ++ q').
  now rewrite !append_assoc.
Qed.

Lemma lstrip_suffix s : exists pre, s = pre ++ Str.lstrip s.
Proof.
  induction s as [|c s [pre IH]]; simpl; [now exists ""|].
  destruct (Char.is_space c); [|now exists ""].
  exists (String c pre). simpl. now rewrite <- IH.
Qed.

Lemma rstrip_prefix s : exists post, s = Str.rstrip s ++ post.
Proof.
  induction s as [|c s [post IH]]; simpl; [now exists ""|].
  destruct (Str.rstrip s) as [|a t].
  - destruct (Char.is_space c).
    + exists (String c s). reflexivity.
    + exists s. reflexivity.
  - exists post. simpl. simpl in IH. now rewrite <- IH.
Qed.

Lemma strip_contains s : Str.contains (Str.strip s) s.
Proof.
  destruct (lstrip_suffix s) as [pre E]. destruct (rstrip_prefix (Str.lstrip s)) as [post E'].
  exists pre, post. unfold Str.strip. now rewrite <- E', <- E.
Qed.




End PieceFacts.

Module KeptFacts.
Import Re Py Parser Lang Shape Fields StrFacts ReFacts SearchFacts NormFacts ParseFacts
  TrimFacts CaptureFacts ValueFacts AnatomyFacts FieldFacts ResultFacts PieceFacts.



End KeptFacts.

Module RaiseFacts.
Import Re Py Parser Lang Shape Fields StrFacts ReFacts SearchFacts NormFacts ParseFacts
  TrimFacts AmountFacts CaptureFacts ValueFacts AnatomyFacts FieldFacts ResultFacts PieceFacts.







End RaiseFacts.

(** * Further properties of the parser *)

Import Fields TrailingFacts TrimFacts AmountFacts CaptureFacts FieldFacts ResultFacts
  PieceFacts KeptFacts RaiseFacts.
























